(** * bouncing_ball.js: a shallow embedding and its verified properties

    The program is a single-page physics toy: SVG circles ("balls") that
    fall under gravity, are slowed by a fluid-resistance term, can be
    dragged and flung with the mouse, and bounce off the window edges.

    Number model.  Every quantity the program stores is an integer-valued
    JavaScript number in normal operation: velocities start at 0 and change
    by 1, by [Math.round] results or by differences of mouse coordinates;
    positions and radii are read back from the SVG attributes through
    [parseInt].  They are modelled as [Z]; an attribute is modelled by the
    value [parseInt] reads from it.  The model is exact as long as all
    magnitudes stay below 2^53.  The one genuinely fractional computation,
    the fluid-resistance term, is carried out in IEEE-754 binary64 with
    Rocq's primitive floats, operation by operation as the source writes
    it, and rounded back to an integer by [Math_round]; so are the
    products of the improbability drive with a random draw.

    Scope.  The globals [mouse_x] and [mouse_y] of the source are
    undefined until the first "mousemove".  A page state of this model
    always has a mouse position: it stands for a page on which the mouse
    has been seen.  A "mousedown" before the first "mousemove" gives the
    ball offsets, and from the next frame on a centre, that are not
    numbers; such states are outside the model.  A property stated for
    every page state is therefore about pages on which the mouse has
    been seen, and the scenarios move the mouse before the first
    "mousedown". *)

From Stdlib Require Import ZArith List String Ascii Bool Lia.
From Stdlib Require PrimFloat FloatOps SpecFloat FloatAxioms.
Import ListNotations.

Open Scope Z_scope.

(* ------------------------------------------------------------------ *)
(** ** JavaScript numerics used by the program *)

Module Num.

(** The double nearest to an integer (exact below 2^53). *)
Definition of_Z (z : Z) : PrimFloat.float :=
  FloatOps.SF2Prim
    (SpecFloat.binary_normalize FloatOps.prec FloatOps.emax z 0 false).

(** [Math.pow(x, 2)]. *)
Definition Math_pow2 (x : PrimFloat.float) : PrimFloat.float :=
  PrimFloat.mul x x.

Definition Math_sqrt (x : PrimFloat.float) : PrimFloat.float :=
  PrimFloat.sqrt x.

(** [Math.round]: the nearest integer, ties towards +infinity, computed
    exactly from sign, mantissa and exponent.  Non-finite arguments do
    not arise from operands below 2^53 and are sent to 0. *)
Definition Math_round (x : PrimFloat.float) : Z :=
  match FloatOps.Prim2SF x with
  | SpecFloat.S754_finite s m e =>
      let v := if s then Z.neg m else Z.pos m in
      if 0 <=? e then v * 2 ^ e
      else (2 * v + 2 ^ (- e)) / 2 ^ (1 - e)
  | _ => 0
  end.

(** The literal [0.0002] of the source: the nearest double. *)
Definition k_resistance : PrimFloat.float :=
  Eval cbv in PrimFloat.div (of_Z 2) (of_Z 10000).

(** [Math.sqrt(Math.pow(vy, 2) + Math.pow(vx, 2))]. *)
Definition speed (vx vy : Z) : PrimFloat.float :=
  Math_sqrt (PrimFloat.add (Math_pow2 (of_Z vy)) (Math_pow2 (of_Z vx))).

(** [Math.round(speed * v * 0.0002 * size)], multiplied left to right. *)
Definition round_drag (v vx vy size : Z) : Z :=
  Math_round
    (PrimFloat.mul
       (PrimFloat.mul (PrimFloat.mul (speed vx vy) (of_Z v)) k_resistance)
       (of_Z size)).

(** A draw of [Math.random()] is a dyadic fraction [k / 2^53] with
    [0 <= k < 2^53]; it is represented by its numerator. *)
Definition draw := Z.

Definition valid_draw (k : draw) : Prop := 0 <= k < 2 ^ 53.

(** The draw as a double: [k / 2^53] has at most 53 significant bits. *)
Definition of_draw (k : draw) : PrimFloat.float :=
  FloatOps.SF2Prim
    (SpecFloat.binary_normalize FloatOps.prec FloatOps.emax k (-53) false).

(** [Math.round(Math.random() * n)]: the product is the binary64 product
    of the two doubles, rounded to nearest even as the hardware does. *)
Definition round_scaled (k : draw) (n : Z) : Z :=
  Math_round (PrimFloat.mul (of_draw k) (of_Z n)).

(** [Math.floor(Math.random() * n)] for [n] a power of two, where the
    binary64 product is exact. *)
Definition floor_scaled (k : draw) (n : Z) : Z := (k * n) / 2 ^ 53.

(** [Math.round] on a double given by sign, mantissa and exponent. *)
Definition round_sf (x : SpecFloat.spec_float) : Z :=
  match x with
  | SpecFloat.S754_finite s m e =>
      let v := if s then Z.neg m else Z.pos m in
      if 0 <=? e then v * 2 ^ e
      else (2 * v + 2 ^ (- e)) / 2 ^ (1 - e)
  | _ => 0
  end.

(** While a mantissa [M] is shifted right by [p] bits for rounding, the
    part kept is not negative and at most [M / 2^p]. *)
Definition shr_floor (M p : Z) (mrs : SpecFloat.shr_record) : Prop :=
  0 <= SpecFloat.shr_m mrs /\ SpecFloat.shr_m mrs * 2 ^ p <= M.

Definition hex_digit (n : Z) : string :=
  match n with
  | 0 => "0" | 1 => "1" | 2 => "2" | 3 => "3" | 4 => "4" | 5 => "5"
  | 6 => "6" | 7 => "7" | 8 => "8" | 9 => "9" | 10 => "a" | 11 => "b"
  | 12 => "c" | 13 => "d" | 14 => "e" | _ => "f"
  end%string.

(** [n.toString(16)] for [0 <= n < 256]. *)
Definition toString16 (n : Z) : string :=
  if n <? 16 then hex_digit n
  else (hex_digit (n / 16) ++ hex_digit (n mod 16))%string.

End Num.

(* ------------------------------------------------------------------ *)
(** ** The SVG circle element of a ball *)

Module Circle.

Record t : Type := mk {
  cx : Z;
  cy : Z;
  r : Z;
  fill : string;
  stroke : option string;
  stroke_width : option string
}.

Definition set_cx (x : Z) (e : t) : t :=
  mk x (cy e) (r e) (fill e) (stroke e) (stroke_width e).

Definition set_cy (y : Z) (e : t) : t :=
  mk (cx e) y (r e) (fill e) (stroke e) (stroke_width e).

Definition set_r (n : Z) (e : t) : t :=
  mk (cx e) (cy e) n (fill e) (stroke e) (stroke_width e).

Definition set_fill (c : string) (e : t) : t :=
  mk (cx e) (cy e) (r e) c (stroke e) (stroke_width e).

(** [removeAttribute("stroke"); removeAttribute("stroke-width")]. *)
Definition clear_highlight (e : t) : t :=
  mk (cx e) (cy e) (r e) (fill e) None None.

(** [setAttribute("stroke","red"); setAttribute("stroke-width","4")]. *)
Definition highlight (e : t) : t :=
  mk (cx e) (cy e) (r e) (fill e) (Some "red"%string) (Some "4"%string).

Definition highlighted (e : t) : bool :=
  match stroke e with
  | Some _ => true
  | None => false
  end.

End Circle.

(* ------------------------------------------------------------------ *)
(** ** DragState *)

Module DragState.

Record t : Type := mk {
  offset_x : Z;
  offset_y : Z;
  vel_x : Z;
  vel_y : Z;
  pos_x : Z;
  pos_y : Z
}.

(** The constructor [new DragState(offset_x, offset_y)]. *)
Definition new (ox oy : Z) : t := mk ox oy 0 0 0 0.

Definition update_velocity (new_x new_y : Z) (d : t) : t :=
  mk (offset_x d) (offset_y d)
     (new_x - pos_x d) (new_y - pos_y d)
     new_x new_y.

End DragState.

(* ------------------------------------------------------------------ *)
(** ** Ball *)

Module Ball.

Record t : Type := mk {
  vel_x : Z;
  vel_y : Z;
  elem : Circle.t;
  drag_state : option DragState.t
}.

(** The constructor [new Ball(pos_x, pos_y, rad)]. *)
Definition new (pos_x pos_y rad : Z) : t :=
  mk 0 0 (Circle.mk pos_x pos_y rad "blue" None None) None.

Definition set_vel_x (v : Z) (b : t) : t :=
  mk v (vel_y b) (elem b) (drag_state b).

Definition set_vel_y (v : Z) (b : t) : t :=
  mk (vel_x b) v (elem b) (drag_state b).

Definition set_elem (e : Circle.t) (b : t) : t :=
  mk (vel_x b) (vel_y b) e (drag_state b).

Definition set_drag_state (d : option DragState.t) (b : t) : t :=
  mk (vel_x b) (vel_y b) (elem b) d.

Definition cx (b : t) : Z := Circle.cx (elem b).
Definition cy (b : t) : Z := Circle.cy (elem b).
Definition r (b : t) : Z := Circle.r (elem b).

(** [start_drag], with the global mouse position as arguments: the
    position the "mousemove" listener stored last.  (Before the first
    "mousemove" the globals are undefined and the offsets are not
    numbers; see the note on scope at the head of the file.) *)
Definition start_drag (mouse_x mouse_y : Z) (b : t) : t :=
  mk 0 0 (elem b)
     (Some (DragState.new (mouse_x - cx b) (mouse_y - cy b))).

(** The body of [stop_drag] once [this.drag_state] is known to be [d]. *)
Definition commit_drag (d : DragState.t) (b : t) : t :=
  mk (DragState.vel_x d) (DragState.vel_y d) (elem b) None.

(** [stop_drag]: reading [this.drag_state.vel_x] throws a TypeError when
    the ball is not dragged, before anything is assigned ([None]). *)
Definition stop_drag (b : t) : option t :=
  match drag_state b with
  | Some d => Some (commit_drag d b)
  | None => None
  end.

End Ball.

(* ------------------------------------------------------------------ *)
(** ** The page: global variables and the controls the program reads *)

Record World : Type := mkWorld {
  mouse_x : Z;
  mouse_y : Z;
  balls : list Ball.t;
  (** The number last assigned to [ball_selector.value]; 0 stands for
      the empty selector.  When the number assigned names no option, the
      element itself reads empty afterwards; the program uses the value
      only to index [balls], where the stored number and the empty value
      both name no ball until [add_ball] assigns the selector again. *)
  ball_selector : Z;
  (** [ball_size_range.value]. *)
  ball_size_range : Z;
  (** [svg.width.animVal.value] and [svg.height.animVal.value]. *)
  svg_width : Z;
  svg_height : Z;
  gravity_checkbox : bool;
  resistance_checkbox : bool
}.

Definition set_balls (bs : list Ball.t) (w : World) : World :=
  mkWorld (mouse_x w) (mouse_y w) bs (ball_selector w) (ball_size_range w)
          (svg_width w) (svg_height w)
          (gravity_checkbox w) (resistance_checkbox w).

Definition set_mouse (x y : Z) (w : World) : World :=
  mkWorld x y (balls w) (ball_selector w) (ball_size_range w)
          (svg_width w) (svg_height w)
          (gravity_checkbox w) (resistance_checkbox w).

Definition set_ball_selector (n : Z) (w : World) : World :=
  mkWorld (mouse_x w) (mouse_y w) (balls w) n (ball_size_range w)
          (svg_width w) (svg_height w)
          (gravity_checkbox w) (resistance_checkbox w).

Definition set_ball_size_range (n : Z) (w : World) : World :=
  mkWorld (mouse_x w) (mouse_y w) (balls w) (ball_selector w) n
          (svg_width w) (svg_height w)
          (gravity_checkbox w) (resistance_checkbox w).

Definition set_checkboxes (g rs : bool) (w : World) : World :=
  mkWorld (mouse_x w) (mouse_y w) (balls w) (ball_selector w)
          (ball_size_range w) (svg_width w) (svg_height w) g rs.

(** How a call ends: normally, or with an uncaught TypeError; either way
    the assignments made so far stay. *)
Inductive Outcome : Type :=
| Returned (w : World)
| Threw (w : World).

Definition world_of (o : Outcome) : World :=
  match o with
  | Returned w => w
  | Threw w => w
  end.

(** [balls[k]] for a JavaScript index [k]: [undefined] out of range. *)
Definition ball_at (bs : list Ball.t) (k : Z) : option Ball.t :=
  if k <? 0 then None else nth_error bs (Z.to_nat k).

(** In-place update of [balls[k]], for [k] in range. *)
Fixpoint update_at (k : nat) (f : Ball.t -> Ball.t) (bs : list Ball.t)
  : list Ball.t :=
  match bs, k with
  | [], _ => []
  | b :: bs', O => f b :: bs'
  | b :: bs', S k' => b :: update_at k' f bs'
  end.

(* ------------------------------------------------------------------ *)
(** ** select_ball and add_ball *)

Definition clear_ball (b : Ball.t) : Ball.t :=
  Ball.set_elem (Circle.clear_highlight (Ball.elem b)) b.

Definition highlight_ball (b : Ball.t) : Ball.t :=
  Ball.set_elem (Circle.highlight (Ball.elem b)) b.

Definition select_ball (ball_num : Z) (w : World) : Outcome :=
  let w1 := set_ball_selector ball_num w in
  match ball_at (balls w1) (ball_num - 1) with
  | None => Threw w1
  | Some b =>
      let w2 := set_ball_size_range (Ball.r b) w1 in
      let cleared := map clear_ball (balls w2) in
      Returned
        (set_balls (update_at (Z.to_nat (ball_num - 1)) highlight_ball cleared)
                   w2)
  end.

(** [add_ball]: the new ball sits at the middle of the page; the halved
    dimension is stored as [parseInt] reads it back. *)
Definition add_ball (w : World) : Outcome :=
  let b := Ball.new (Z.quot (svg_width w) 2) (Z.quot (svg_height w) 2) 20 in
  let w1 := set_balls (balls w ++ [b]) w in
  select_ball (Z.of_nat (List.length (balls w1))) w1.

(* ------------------------------------------------------------------ *)
(** ** advance_frame: one iteration of its loop, statement by statement *)

(** [if (gravity_checkbox.checked) if (drag_state == null) vel_y += 1]. *)
Definition apply_gravity (g : bool) (b : Ball.t) : Ball.t :=
  if g then
    match Ball.drag_state b with
    | None => Ball.set_vel_y (Ball.vel_y b + 1) b
    | Some _ => b
    end
  else b.

(** [x_accel]: the factor after [0.0002] is [parseInt] of attribute "r". *)
Definition x_accel (b : Ball.t) : Z :=
  Num.round_drag (Ball.vel_x b) (Ball.vel_x b) (Ball.vel_y b) (Ball.r b).

Definition y_accel (b : Ball.t) : Z :=
  Num.round_drag (Ball.vel_y b) (Ball.vel_x b) (Ball.vel_y b) (Ball.r b).

(** [if (accel > Math.abs(v)) v = 0; else v -= accel]. *)
Definition damp (v accel : Z) : Z :=
  if accel >? Z.abs v then 0 else v - accel.

Definition apply_resistance (rs : bool) (b : Ball.t) : Ball.t :=
  if rs then
    match Ball.drag_state b with
    | None =>
        let ax := x_accel b in
        let ay := y_accel b in
        Ball.set_vel_y (damp (Ball.vel_y b) ay)
          (Ball.set_vel_x (damp (Ball.vel_x b) ax) b)
    | Some _ => b
    end
  else b.

(** [cx = parseInt(cx) + vel_x; cy = parseInt(cy) + vel_y]. *)
Definition move (b : Ball.t) : Ball.t :=
  Ball.set_elem
    (Circle.set_cy (Ball.cy b + Ball.vel_y b)
       (Circle.set_cx (Ball.cx b + Ball.vel_x b) (Ball.elem b)))
    b.

(** The block guarded by [drag_state != null]. *)
Definition follow_mouse (mx my : Z) (b : Ball.t) : Ball.t :=
  match Ball.drag_state b with
  | None => b
  | Some d =>
      Ball.set_drag_state (Some (DragState.update_velocity mx my d))
        (Ball.set_elem
           (Circle.set_cy (my - DragState.offset_y d)
              (Circle.set_cx (mx - DragState.offset_x d) (Ball.elem b)))
           b)
  end.

Definition advance_ball (mx my : Z) (g rs : bool) (b : Ball.t) : Ball.t :=
  follow_mouse mx my (move (apply_resistance rs (apply_gravity g b))).

(* ------------------------------------------------------------------ *)
(** ** handle_collisions: the four tests, in the order of the source *)

(** [if (balls[i].drag_state != null) balls[i].stop_drag()]. *)
Definition release (b : Ball.t) : Ball.t :=
  match Ball.drag_state b with
  | Some d => Ball.commit_drag d b
  | None => b
  end.

Definition bounce_x (x : Z) (b : Ball.t) : Ball.t :=
  let b1 := release b in
  let b2 := Ball.set_vel_x (- Ball.vel_x b1) b1 in
  Ball.set_elem (Circle.set_cx x (Ball.elem b2)) b2.

Definition bounce_y (y : Z) (b : Ball.t) : Ball.t :=
  let b1 := release b in
  let b2 := Ball.set_vel_y (- Ball.vel_y b1) b1 in
  Ball.set_elem (Circle.set_cy y (Ball.elem b2)) b2.

Definition collide_left (b : Ball.t) : Ball.t :=
  if Ball.cx b - Ball.r b <=? 0 then bounce_x (1 + Ball.r b) b else b.

Definition collide_right (width : Z) (b : Ball.t) : Ball.t :=
  if Ball.cx b + Ball.r b >=? width
  then bounce_x (width - 1 - Ball.r b) b else b.

Definition collide_top (b : Ball.t) : Ball.t :=
  if Ball.cy b - Ball.r b <=? 0 then bounce_y (1 + Ball.r b) b else b.

Definition collide_bottom (height : Z) (b : Ball.t) : Ball.t :=
  if Ball.cy b + Ball.r b >=? height
  then bounce_y (height - 1 - Ball.r b) b else b.

Definition collide_ball (width height : Z) (b : Ball.t) : Ball.t :=
  collide_bottom height
    (collide_top (collide_right width (collide_left b))).

Definition handle_collisions (w : World) : World :=
  set_balls (map (collide_ball (svg_width w) (svg_height w)) (balls w)) w.

Definition advance_frame (w : World) : World :=
  handle_collisions
    (set_balls
       (map (advance_ball (mouse_x w) (mouse_y w)
               (gravity_checkbox w) (resistance_checkbox w))
            (balls w))
       w).

(* ------------------------------------------------------------------ *)
(** ** infinite_improbability_drive *)

(** [rdm_hex_pair], on the draw its [Math.random()] call returns. *)
Definition rdm_hex_pair (k : Num.draw) : string :=
  let pair := Num.toString16 (Num.floor_scaled k 256) in
  if (String.length pair <? 2)%nat then ("0" ++ pair)%string else pair.

(** One iteration of the loop; [rnd n], [rnd (n+1)], ... are the results
    of its eight [Math.random()] calls, in evaluation order. *)
Definition improbable_ball (width height : Z) (rnd : nat -> Num.draw)
  (n : nat) (b : Ball.t) : Ball.t :=
  let colour :=
    ("#" ++ rdm_hex_pair (rnd n) ++ rdm_hex_pair (rnd (n + 1)%nat)
         ++ rdm_hex_pair (rnd (n + 2)%nat))%string in
  let e1 := Circle.set_fill colour (Ball.elem b) in
  let e2 := Circle.set_cx (Num.round_scaled (rnd (n + 3)%nat) width) e1 in
  let e3 := Circle.set_cy (Num.round_scaled (rnd (n + 4)%nat) height) e2 in
  let e4 := Circle.set_r (Num.round_scaled (rnd (n + 5)%nat) 145 + 5) e3 in
  Ball.mk (Num.round_scaled (rnd (n + 6)%nat) 50)
          (Num.round_scaled (rnd (n + 7)%nat) 50)
          e4 (Ball.drag_state b).

Fixpoint improbable_balls (width height : Z) (rnd : nat -> Num.draw)
  (n : nat) (bs : list Ball.t) : list Ball.t :=
  match bs with
  | [] => []
  | b :: bs' =>
      improbable_ball width height rnd n b
        :: improbable_balls width height rnd (n + 8)%nat bs'
  end.

Definition infinite_improbability_drive (rnd : nat -> Num.draw) (w : World)
  : Outcome :=
  let w1 :=
    set_balls
      (improbable_balls (svg_width w) (svg_height w) rnd 0%nat (balls w)) w in
  select_ball (ball_selector w1) w1.

(* ------------------------------------------------------------------ *)
(** ** The page as a machine driven by events *)

Inductive Event : Type :=
| MouseMove (x y : Z)              (* "mousemove" on the document *)
| MouseDown (i : nat)              (* "mousedown" on the circle of balls[i] *)
| MouseUp (i : nat)                (* "mouseup" on the circle of balls[i] *)
| Tick                             (* the 25 ms interval: advance_frame *)
| AddBall
| SelectBall (ball_num : Z)
| SetCheckboxes (g rs : bool)
| Improbability (rnd : nat -> Num.draw).

(** [handleEvent] for "mouseup": an uncaught TypeError changes nothing. *)
Definition mouseup_ball (b : Ball.t) : Ball.t :=
  match Ball.stop_drag b with
  | Some b' => b'
  | None => b
  end.

Definition handle_event (e : Event) (w : World) : World :=
  match e with
  | MouseMove x y => set_mouse x y w
  | MouseDown i =>
      set_balls
        (update_at i (Ball.start_drag (mouse_x w) (mouse_y w)) (balls w)) w
  | MouseUp i => set_balls (update_at i mouseup_ball (balls w)) w
  | Tick => advance_frame w
  | AddBall => world_of (add_ball w)
  | SelectBall n => world_of (select_ball n w)
  | SetCheckboxes g rs => set_checkboxes g rs w
  | Improbability rnd => world_of (infinite_improbability_drive rnd w)
  end.

Definition run (es : list Event) (w : World) : World :=
  fold_left (fun w' e => handle_event e w') es w.


(* ------------------------------------------------------------------ *)
(** ** Predicates the properties are stated with *)

Definition held (b : Ball.t) : Prop := Ball.drag_state b <> None.


(** The four tests of [handle_collisions], on the state it starts from. *)
Definition violates_left (b : Ball.t) : Prop := Ball.cx b - Ball.r b <= 0.

Definition violates_right (width : Z) (b : Ball.t) : Prop :=
  Ball.cx b + Ball.r b >= width.

Definition violates_top (b : Ball.t) : Prop := Ball.cy b - Ball.r b <= 0.

Definition violates_bottom (height : Z) (b : Ball.t) : Prop :=
  Ball.cy b + Ball.r b >= height.

Definition violates (width height : Z) (b : Ball.t) : Prop :=
  violates_left b \/ violates_right width b \/
  violates_top b \/ violates_bottom height b.

(** The disk of the ball lies in [0, width] x [0, height]. *)
Definition inside (width height : Z) (b : Ball.t) : Prop :=
  0 <= Ball.cx b - Ball.r b /\ Ball.cx b + Ball.r b <= width /\
  0 <= Ball.cy b - Ball.r b /\ Ball.cy b + Ball.r b <= height.

(** The edge is at least one unit inside every boundary that [b0]
    violated. *)
Definition inset_where_violated (width height : Z) (b0 b : Ball.t) : Prop :=
  (violates_left b0 -> 1 <= Ball.cx b - Ball.r b) /\
  (violates_right width b0 -> Ball.cx b + Ball.r b <= width - 1) /\
  (violates_top b0 -> 1 <= Ball.cy b - Ball.r b) /\
  (violates_bottom height b0 -> Ball.cy b + Ball.r b <= height - 1).

(** The diameter leaves room for the one-unit inset on both sides. *)
Definition fits (width height : Z) (b : Ball.t) : Prop :=
  2 * Ball.r b + 1 < width /\ 2 * Ball.r b + 1 < height.

Definition highlighted_count (bs : list Ball.t) : nat :=
  List.length (filter (fun b => Circle.highlighted (Ball.elem b)) bs).

Definition valid_draws (rnd : nat -> Num.draw) : Prop :=
  forall n, Num.valid_draw (rnd n).

(** What the improbability drive leaves in a ball. *)
Definition improbable_ranges (width height : Z) (b : Ball.t) : Prop :=
  5 <= Ball.r b <= 150 /\
  0 <= Ball.cx b <= width /\ 0 <= Ball.cy b <= height /\
  0 <= Ball.vel_x b <= 50 /\ 0 <= Ball.vel_y b <= 50.

(* ------------------------------------------------------------------ *)
(** ** The resistance step as the specification words it

    These two definitions follow the specification, not the source; they
    are what the source's [x_accel], [y_accel] and [damp] are compared
    with. *)

(** [round(speed * v * k * diameter)] with [diameter = 2 * radius]. *)
Definition spec_accel (v vx vy radius : Z) : Z :=
  Num.round_drag v vx vy (2 * radius).

(** Subtract, except that [|accel| > |v|] snaps the component to 0. *)
Definition spec_damp (v accel : Z) : Z :=
  if Z.abs accel >? Z.abs v then 0 else v - accel.

(* ------------------------------------------------------------------ *)
(** ** Scenarios *)

(** A page of 800 x 600 showing the given balls, the first one selected,
    both checkboxes as given, the mouse at the origin. *)
Definition page (g rs : bool) (bs : list Ball.t) : World :=
  mkWorld 0 0 bs 1 20 800 600 g rs.

(** A page without balls, of 800 x 600, on which the mouse has been seen
    at the origin. *)
Definition empty_page (g rs : bool) : World :=
  mkWorld 0 0 [] 0 0 800 600 g rs.

(** A free ball of the default colour. *)
Definition free_ball (x y rad vx vy : Z) : Ball.t :=
  Ball.mk vx vy (Circle.mk x y rad "blue" None None) None.

(** The ball of the specification's reflection scenario. *)
Definition left_edge_ball : Ball.t := free_ball 15 300 20 (-5) 2.

(** A page only 41 wide, with both checkboxes off. *)
Definition narrow_page (bs : list Ball.t) : World :=
  mkWorld 0 0 bs 1 20 41 600 false false.

(** A ball in the top left corner. *)
Definition corner_ball : Ball.t := free_ball 15 15 20 (-5) (-3).

(** A ball as tall as a viewport of height 300. *)
Definition tall_ball : Ball.t := free_ball 400 150 150 0 0.

(** A page of 800 x 300 with both checkboxes off. *)
Definition low_page (bs : list Ball.t) : World :=
  mkWorld 0 0 bs 1 150 800 300 false false.

(** A ball being dragged to the left across the left edge: the mouse
    moved from (22, 305) to (15, 308) in the last frame. *)
Definition dragged_ball : Ball.t :=
  Ball.mk 0 0 (Circle.mk 10 303 20 "blue" None None)
          (Some (DragState.mk 5 5 (-7) 3 15 308)).

(** A large ball moving slowly to the left and fast downwards. *)
Definition falling_ball : Ball.t := free_ball 500 300 150 (-5) 60.

(** Its mirror image, moving to the right. *)
Definition falling_ball_right : Ball.t := free_ball 500 300 150 5 60.

(** A small ball moving to the right and downwards. *)
Definition gliding_ball : Ball.t := free_ball 400 300 10 100 70.

(** A small ball moving fast to the right. *)
Definition fast_ball : Ball.t := free_ball 400 300 10 100 0.

(** A quick click: the button goes down on a resting ball at (100, 100),
    the mouse moves by (3, 4), one frame passes, the button goes up. *)
Definition quick_click : list Event :=
  [MouseMove 100 100; MouseDown 0; MouseMove 103 104; Tick; MouseUp 0].

(** Every draw is 1/2. *)
Definition half_draws : nat -> Num.draw := fun _ => 2 ^ 52.

(** A stream of draws that vary from call to call. *)
Definition sample_draws : nat -> Num.draw :=
  fun n => (Z.of_nat n * 1000000007 * 2 ^ 20) mod 2 ^ 53.



(* ------------------------------------------------------------------ *)
(** ** Reading back what the program writes *)

(** The position of a character in a string, counted from 0. *)
Fixpoint position (c : ascii) (s : string) : option Z :=
  match s with
  | EmptyString => None
  | String a s' =>
      if Ascii.eqb c a then Some 0 else option_map Z.succ (position c s')
  end.

(** The value of a lower-case hexadecimal digit: its place among the
    sixteen digits. *)
Definition hex_digit_value (c : ascii) : option Z :=
  position c "0123456789abcdef".

(** The byte a string of exactly two hexadecimal digits denotes. *)
Definition hex_pair_value (s : string) : option Z :=
  match s with
  | String a (String b EmptyString) =>
      match hex_digit_value a, hex_digit_value b with
      | Some x, Some y => Some (16 * x + y)
      | _, _ => None
      end
  | _ => None
  end.

(** The three channels of a colour written ["#rrggbb"]. *)
Definition colour_channels (s : string) : option (Z * Z * Z) :=
  match s with
  | String "#" (String a (String b (String c (String d (String e
      (String f EmptyString)))))) =>
      match hex_pair_value (String a (String b EmptyString)),
            hex_pair_value (String c (String d EmptyString)),
            hex_pair_value (String e (String f EmptyString)) with
      | Some x, Some y, Some z => Some (x, y, z)
      | _, _, _ => None
      end
  | _ => None
  end.

Definition is_byte (n : Z) : Prop := 0 <= n <= 255.

(** All bytes, for case analysis by computation. *)
Definition bytes : list Z := map Z.of_nat (seq 0 256).

(** [rdm_hex_pair]'s padding of [n.toString(16)] reads back as [n] and
    has two characters. *)
Definition hex_pair_reads_back (n : Z) : bool :=
  let pair := Num.toString16 n in
  let padded :=
    if (String.length pair <? 2)%nat then ("0" ++ pair)%string else pair in
  match hex_pair_value padded with
  | Some m => (m =? n) && (String.length padded =? 2)%nat
  | None => false
  end.

(* ------------------------------------------------------------------ *)
(** ** Further predicates *)

(** What the selection controls show of a ball: whether it carries the
    outline, and its radius. *)
Definition outline_key (b : Ball.t) : bool * Z :=
  (Circle.highlighted (Ball.elem b), Ball.r b).

(** The selection is consistent: on a page with balls the selector names
    a ball, that ball and no other carries the outline, and the size
    control shows its radius. *)
Definition selection_ok (w : World) : Prop :=
  balls w = [] \/
  exists b,
    ball_at (balls w) (ball_selector w - 1) = Some b /\
    Circle.highlighted (Ball.elem b) = true /\
    ball_size_range w = Ball.r b /\
    highlighted_count (balls w) = 1%nat.

(** An event the page's controls can deliver: the selector only offers
    the numbers of existing balls. *)
Definition ui_event (w : World) (e : Event) : bool :=
  match e with
  | SelectBall n => (1 <=? n) && (n <=? Z.of_nat (List.length (balls w)))
  | _ => true
  end.

Fixpoint ui_events (es : list Event) (w : World) : bool :=
  match es with
  | [] => true
  | e :: es' => ui_event w e && ui_events es' (handle_event e w)
  end.

(** The ball strictly inside the viewport: no test of
    [handle_collisions] fires. *)
Definition clear_of_walls (width height : Z) (b : Ball.t) : Prop :=
  0 < Ball.cx b - Ball.r b /\ Ball.cx b + Ball.r b < width /\
  0 < Ball.cy b - Ball.r b /\ Ball.cy b + Ball.r b < height.

(** The ball is not dragged and leaves room for the inset. *)
Definition free_and_fits (width height : Z) (b : Ball.t) : Prop :=
  Ball.drag_state b = None /\ fits width height b.

(** The ball is not dragged and strictly inside the viewport. *)
Definition free_and_clear (width height : Z) (b : Ball.t) : Prop :=
  Ball.drag_state b = None /\ clear_of_walls width height b.

(** [0 + 1 + ... + n]. *)
Definition triangle (n : Z) : Z := n * (n + 1) / 2.

(** Where a ball in free fall is after [n] frames, and how fast. *)
Definition fallen (n : Z) (b : Ball.t) : Ball.t :=
  Ball.mk (Ball.vel_x b) (Ball.vel_y b + n)
    (Circle.set_cy (Ball.cy b + n * Ball.vel_y b + triangle n)
       (Circle.set_cx (Ball.cx b + n * Ball.vel_x b) (Ball.elem b)))
    (Ball.drag_state b).

(** A ball thrown upwards from the middle of the page. *)
Definition thrown_ball : Ball.t := free_ball 400 300 20 3 (-10).

(** A page with a selected, outlined first ball and a dragged second. *)
Definition busy_page : World :=
  mkWorld 30 310 [highlight_ball fast_ball; dragged_ball] 1 10 800 600
          true true.

(** A session: two balls are added, the first is selected again, the
    second is flung, the drive is started, frames pass. *)
Definition session : list Event :=
  [AddBall; AddBall; SelectBall 1; MouseMove 400 300; MouseDown 1;
   MouseMove 380 290; Tick; MouseMove 350 280; Tick; MouseUp 1; Tick;
   Improbability sample_draws; Tick; SetCheckboxes true true; Tick].

(** What a frame never changes of a ball: radius, colour and outline. *)
Definition appearance (b : Ball.t)
  : Z * string * option string * option string :=
  (Ball.r b, Circle.fill (Ball.elem b), Circle.stroke (Ball.elem b),
   Circle.stroke_width (Ball.elem b)).

(** The controls and globals of the page, without the balls. *)
Definition controls (w : World) : World := set_balls [] w.

(** The events of a drag along the mouse positions [ps], one frame per
    position. *)
Definition drag_path (ps : list (Z * Z)) : list Event :=
  flat_map (fun p => [MouseMove (fst p) (snd p); Tick]) ps.

(** With the mouse at [p], a ball of radius [rad] held at the offset of
    [d] is strictly inside the viewport. *)
Definition pointer_clear (width height : Z) (d : DragState.t) (rad : Z)
  (p : Z * Z) : Prop :=
  0 < fst p - DragState.offset_x d - rad /\
  fst p - DragState.offset_x d + rad < width /\
  0 < snd p - DragState.offset_y d - rad /\
  snd p - DragState.offset_y d + rad < height.

(** A dragged ball after a frame with the mouse at [p], away from the
    walls. *)
Definition drag_to (p : Z * Z) (b : Ball.t) : Ball.t :=
  match Ball.drag_state b with
  | Some d =>
      Ball.mk (Ball.vel_x b) (Ball.vel_y b)
        (Circle.mk (fst p - DragState.offset_x d)
           (snd p - DragState.offset_y d)
           (Ball.r b) (Circle.fill (Ball.elem b))
           (Circle.stroke (Ball.elem b)) (Circle.stroke_width (Ball.elem b)))
        (Some (DragState.update_velocity (fst p) (snd p) d))
  | None => b
  end.

(** The drag state of [dragged_ball]. *)
Definition grip : DragState.t := DragState.mk 5 5 (-7) 3 15 308.

(** The fill attribute is a colour ["#rrggbb"] of three bytes. *)
Definition well_coloured (b : Ball.t) : Prop :=
  exists red green blue,
    colour_channels (Circle.fill (Ball.elem b)) = Some (red, green, blue) /\
    is_byte red /\ is_byte green /\ is_byte blue.

(* ================================================================== *)
(** * Properties *)

#[local] Arguments Z.add : simpl never.
#[local] Arguments Z.sub : simpl never.
#[local] Arguments Z.mul : simpl never.
#[local] Arguments Z.opp : simpl never.
#[local] Arguments Z.abs : simpl never.
#[local] Arguments Z.leb : simpl never.
#[local] Arguments Z.ltb : simpl never.
#[local] Arguments Z.geb : simpl never.
#[local] Arguments Z.gtb : simpl never.
#[local] Arguments Z.div : simpl never.
#[local] Arguments Z.quot : simpl never.
#[local] Arguments Z.pow : simpl never.

#[local] Arguments collide_left : simpl never.
#[local] Arguments collide_right : simpl never.
#[local] Arguments collide_top : simpl never.
#[local] Arguments collide_bottom : simpl never.
#[local] Arguments bounce_x : simpl never.
#[local] Arguments bounce_y : simpl never.
#[local] Arguments release : simpl never.
#[local] Arguments collide_ball : simpl never.
#[local] Arguments apply_gravity : simpl never.
#[local] Arguments apply_resistance : simpl never.
#[local] Arguments move : simpl never.
#[local] Arguments follow_mouse : simpl never.
#[local] Arguments advance_ball : simpl never.
#[local] Arguments x_accel : simpl never.
#[local] Arguments y_accel : simpl never.
#[local] Arguments damp : simpl never.
#[local] Arguments Num.round_drag : simpl never.
#[local] Arguments Num.round_scaled : simpl never.
#[local] Arguments Num.floor_scaled : simpl never.
#[local] Arguments rdm_hex_pair : simpl never.

(** Decide the next integer test of a conditional and simplify. *)
Ltac split_test :=
  match goal with
  | |- context [?a >=? ?b] => rewrite (Z.geb_leb a b)
  | |- context [?a >? ?b] => rewrite (Z.gtb_ltb a b)
  | |- context [?a <=? ?b] => destruct (Z.leb_spec a b)
  | |- context [?a <? ?b] => destruct (Z.ltb_spec a b)
  end; cbn in *; try lia.

Ltac split_tests := cbn in *; repeat split_test.

Ltac open_ball b :=
  let vx := fresh "vx" in
  let vy := fresh "vy" in
  let e := fresh "e" in
  let d := fresh "d" in
  destruct b as [vx vy e d];
  let x := fresh "x" in
  let y := fresh "y" in
  let rad := fresh "rad" in
  destruct e as [x y rad ? ? ?]; cbn in *.

(** Run one test of [handle_collisions] on an opened ball. *)
Ltac stage f :=
  unfold f, bounce_x, bounce_y, release, Ball.commit_drag; split_tests.

(** Run the four tests in the order of the source. *)
Ltac resolve_stages :=
  unfold collide_ball;
  stage collide_left; stage collide_right;
  stage collide_top; stage collide_bottom.

(** Run the statements of one iteration of [advance_frame], in order, on
    an opened ball with known checkboxes and drag state. *)
Ltac frame_stages :=
  unfold advance_ball;
  unfold apply_gravity; cbn;
  unfold apply_resistance; cbn;
  unfold move; cbn;
  unfold follow_mouse; cbn.

(* ------------------------------------------------------------------ *)
(** ** Boundary resolution, one ball *)

Section Collisions.

Variables width height : Z.

Lemma collide_ball_radius (b : Ball.t) :
  Ball.r (collide_ball width height b) = Ball.r b.
Proof.
  open_ball b; destruct d; resolve_stages; reflexivity.
Qed.

(** A ball that is not dragged stays so, and a dragged ball is either
    released or left exactly as it was. *)
Lemma collide_ball_drag_state (b : Ball.t) :
  Ball.drag_state (collide_ball width height b) = None \/
  collide_ball width height b = b.
Proof.
  open_ball b; destruct d; resolve_stages; auto.
Qed.

Lemma collide_ball_free (b : Ball.t) :
  Ball.drag_state b = None ->
  Ball.drag_state (collide_ball width height b) = None.
Proof.
  intros Hfree.
  destruct (collide_ball_drag_state b) as [H | H]; [exact H | now rewrite H].
Qed.

(** With room for the inset, the x coordinate ends strictly inside. *)
Lemma collide_ball_x (b : Ball.t) :
  2 * Ball.r b + 1 < width ->
  let b' := collide_ball width height b in
  (violates_left b -> Ball.cx b' = Ball.r b + 1) /\
  (~ violates_left b -> violates_right width b ->
   Ball.cx b' = width - 1 - Ball.r b) /\
  (~ violates_left b -> ~ violates_right width b -> Ball.cx b' = Ball.cx b).
Proof.
  unfold violates_left, violates_right, Ball.cx, Ball.r.
  open_ball b; intros Hfit.
  destruct d; resolve_stages; repeat split; intros; lia.
Qed.

Lemma collide_ball_y (b : Ball.t) :
  2 * Ball.r b + 1 < height ->
  let b' := collide_ball width height b in
  (violates_top b -> Ball.cy b' = Ball.r b + 1) /\
  (~ violates_top b -> violates_bottom height b ->
   Ball.cy b' = height - 1 - Ball.r b) /\
  (~ violates_top b -> ~ violates_bottom height b -> Ball.cy b' = Ball.cy b).
Proof.
  unfold violates_top, violates_bottom, Ball.cy, Ball.r.
  open_ball b; intros Hfit.
  destruct d; resolve_stages; repeat split; intros; lia.
Qed.

(** Resolving a dragged ball that violates a boundary is resolving the
    ball [stop_drag] leaves. *)
Lemma collide_ball_releases (b : Ball.t) (d : DragState.t) :
  Ball.drag_state b = Some d ->
  violates width height b ->
  collide_ball width height b
  = collide_ball width height (Ball.commit_drag d b).
Proof.
  unfold violates, violates_left, violates_right, violates_top,
    violates_bottom, Ball.cx, Ball.cy, Ball.r.
  open_ball b; intros Hd Hv. subst d0.
  unfold Ball.commit_drag at 1. cbn.
  resolve_stages; reflexivity.
Qed.

(** The velocity of a ball that is not dragged, after resolution. *)
Lemma collide_ball_free_velocity (b : Ball.t) :
  Ball.drag_state b = None ->
  let b' := collide_ball width height b in
  (2 * Ball.r b + 1 < width ->
   (violates_left b \/ violates_right width b ->
    Ball.vel_x b' = - Ball.vel_x b) /\
   (~ violates_left b -> ~ violates_right width b ->
    Ball.vel_x b' = Ball.vel_x b)) /\
  (2 * Ball.r b + 1 < height ->
   (violates_top b \/ violates_bottom height b ->
    Ball.vel_y b' = - Ball.vel_y b) /\
   (~ violates_top b -> ~ violates_bottom height b ->
    Ball.vel_y b' = Ball.vel_y b)).
Proof.
  unfold violates_left, violates_right, violates_top, violates_bottom,
    Ball.cx, Ball.cy, Ball.r.
  open_ball b; intros Hd; subst d.
  resolve_stages; repeat split; intros; try reflexivity; lia.
Qed.

End Collisions.

Lemma collide_ball_inside (width height : Z) (b : Ball.t) :
  fits width height b ->
  inside width height (collide_ball width height b) /\
  inset_where_violated width height b (collide_ball width height b).
Proof.
  intros [Hw Hh].
  pose proof (collide_ball_x width height b Hw) as (Hl & Hr & Hx).
  pose proof (collide_ball_y width height b Hh) as (Ht & Hb & Hy).
  pose proof (collide_ball_radius width height b) as Hrad.
  cbv zeta in *.
  unfold inside, inset_where_violated.
  rewrite Hrad.
  unfold violates_left, violates_right, violates_top, violates_bottom in *.
  assert (Hcx : 1 <= Ball.cx (collide_ball width height b) - Ball.r b /\
                Ball.cx (collide_ball width height b) + Ball.r b
                <= width - 1).
  { destruct (Z_le_gt_dec (Ball.cx b - Ball.r b) 0) as [Hv | Hv].
    - rewrite (Hl Hv); lia.
    - destruct (Z_le_gt_dec width (Ball.cx b + Ball.r b)) as [Hv' | Hv'].
      + rewrite Hr by lia; lia.
      + rewrite Hx by lia; lia. }
  assert (Hcy : 1 <= Ball.cy (collide_ball width height b) - Ball.r b /\
                Ball.cy (collide_ball width height b) + Ball.r b
                <= height - 1).
  { destruct (Z_le_gt_dec (Ball.cy b - Ball.r b) 0) as [Hv | Hv].
    - rewrite (Ht Hv); lia.
    - destruct (Z_le_gt_dec height (Ball.cy b + Ball.r b)) as [Hv' | Hv'].
      + rewrite Hb by lia; lia.
      + rewrite Hy by lia; lia. }
  repeat split; intros; lia.
Qed.

(** [handle_collisions] resolves every ball of the list in place. *)
Lemma handle_collisions_nth (w : World) (i : nat) (b : Ball.t) :
  nth_error (balls w) i = Some b ->
  nth_error (balls (handle_collisions w)) i
  = Some (collide_ball (svg_width w) (svg_height w) b).
Proof.
  intros H. unfold handle_collisions. cbn.
  now apply map_nth_error.
Qed.

(* ------------------------------------------------------------------ *)
(** ** C3: containment after boundary resolution *)

(** C3, as stated, fails: a ball of radius 150 (the largest the
    improbability drive hands out) centred in a viewport of height 300
    touches the top edge, is moved down to y = 151, now reaches the bottom
    edge, and is moved back up to y = 149: its disk ends one unit above
    the viewport. *)
Lemma C3_counterexample :
  0 < Ball.r tall_ball /\
  exists b',
    balls (handle_collisions (low_page [tall_ball])) = [b'] /\
    Ball.cy b' = 149 /\ Ball.r b' = 150 /\
    ~ inside 800 300 b'.
Proof.
  split; [reflexivity |].
  eexists. split; [reflexivity |]. split; [reflexivity |].
  split; [reflexivity |].
  unfold inside. intros (_ & _ & H & _). revert H. now vm_compute.
Qed.

(** C3 (amended): for every ball whose diameter leaves room for the
    inset on both axes (2r + 1 < width and 2r + 1 < height), whatever its
    velocity, position and drag state, after [handle_collisions] its disk
    lies within [0, width] x [0, height], and its edge is at least one
    unit inside every boundary it violated. *)
Theorem C3_disk_inside_after_collisions (w : World) (i : nat) (b : Ball.t) :
  nth_error (balls w) i = Some b ->
  fits (svg_width w) (svg_height w) b ->
  exists b',
    nth_error (balls (handle_collisions w)) i = Some b' /\
    inside (svg_width w) (svg_height w) b' /\
    inset_where_violated (svg_width w) (svg_height w) b b'.
Proof.
  intros Hb Hfit.
  exists (collide_ball (svg_width w) (svg_height w) b).
  split; [now apply handle_collisions_nth |].
  now apply collide_ball_inside.
Qed.

Lemma C3_disk_inside_witness :
  exists b',
    nth_error (balls (handle_collisions (page false false [corner_ball]))) 0
    = Some b' /\
    inside 800 600 b' /\ inset_where_violated 800 600 corner_ball b'.
Proof.
  apply (C3_disk_inside_after_collisions
           (page false false [corner_ball]) 0 corner_ball).
  - reflexivity.
  - unfold fits; cbn; lia.
Defined.

(* ------------------------------------------------------------------ *)
(** ** C4: reflection at the left boundary *)

(** C4, as stated, fails in two ways.  A ball in a corner, at (15, 15)
    with radius 20 and velocity (-5, -3) on a page of 800 x 600, violates
    the left and the top boundary, and resolution negates both
    components: the y velocity ends as 3, not -3.  And on a page only 41
    wide the ball of the specification's scenario (x = 15, r = 20,
    vx = -5) is moved to x = 21 by the left test, then reaches the right
    boundary (21 + 20 >= 41) and is reflected and moved again: it ends
    with vx = -5 and x = 20. *)
Lemma C4_counterexample :
  (Ball.drag_state corner_ball = None /\ violates_left corner_ball /\
   exists b',
     balls (handle_collisions (page false false [corner_ball])) = [b'] /\
     Ball.vel_x b' = 5 /\ Ball.cx b' = 21 /\
     Ball.vel_y b' = 3 /\ Ball.vel_y b' <> Ball.vel_y corner_ball) /\
  (Ball.drag_state left_edge_ball = None /\ violates_left left_edge_ball /\
   exists b',
     balls (handle_collisions (narrow_page [left_edge_ball])) = [b'] /\
     Ball.vel_x b' = -5 /\ Ball.cx b' = 20 /\
     Ball.vel_x b' <> - Ball.vel_x left_edge_ball /\
     Ball.cx b' <> Ball.r left_edge_ball + 1).
Proof.
  split.
  - split; [reflexivity |]. split; [unfold violates_left; cbn; lia |].
    eexists. repeat split; try reflexivity. cbn. discriminate.
  - split; [reflexivity |]. split; [unfold violates_left; cbn; lia |].
    eexists. split; [reflexivity |]. split; [reflexivity |].
    split; [reflexivity |]. split; vm_compute; discriminate.
Qed.

(** C4 (amended): for every ball that is not dragged and violates the
    left boundary, in a viewport wider than its diameter plus one
    (2r + 1 < width), resolution yields x velocity [-vx] and x position
    [radius + 1]; the y velocity is [vy] when the ball violates neither
    the top nor the bottom boundary, and [-vy] when it violates one of
    them in a viewport higher than its diameter plus one. *)
Theorem C4_left_bounce (w : World) (i : nat) (b : Ball.t) :
  nth_error (balls w) i = Some b ->
  Ball.drag_state b = None ->
  violates_left b ->
  2 * Ball.r b + 1 < svg_width w ->
  exists b',
    nth_error (balls (handle_collisions w)) i = Some b' /\
    Ball.vel_x b' = - Ball.vel_x b /\
    Ball.cx b' = Ball.r b + 1 /\
    (~ violates_top b -> ~ violates_bottom (svg_height w) b ->
     Ball.vel_y b' = Ball.vel_y b) /\
    (2 * Ball.r b + 1 < svg_height w ->
     violates_top b \/ violates_bottom (svg_height w) b ->
     Ball.vel_y b' = - Ball.vel_y b).
Proof.
  intros Hb Hfree Hleft Hfit.
  exists (collide_ball (svg_width w) (svg_height w) b).
  split; [now apply handle_collisions_nth |].
  clear Hb. revert Hfree Hleft Hfit.
  generalize (svg_width w) (svg_height w). intros width height.
  unfold violates_left, violates_right, violates_top, violates_bottom,
    Ball.cx, Ball.cy, Ball.r.
  open_ball b; intros Hd; subst d; intros Hleft Hfit.
  resolve_stages; repeat split; intros; try reflexivity; lia.
Qed.

(** The scenario of the specification: x = 15, r = 20, vx = -5 ends with
    vx = 5 and x = 21. *)
Lemma C4_left_bounce_witness :
  exists b',
    nth_error (balls (handle_collisions (page false false [left_edge_ball])))
              0 = Some b' /\
    Ball.vel_x b' = - Ball.vel_x left_edge_ball /\
    Ball.cx b' = Ball.r left_edge_ball + 1 /\
    (~ violates_top left_edge_ball ->
     ~ violates_bottom (svg_height (page false false [left_edge_ball]))
         left_edge_ball ->
     Ball.vel_y b' = Ball.vel_y left_edge_ball) /\
    (2 * Ball.r left_edge_ball + 1
     < svg_height (page false false [left_edge_ball]) ->
     violates_top left_edge_ball \/
     violates_bottom (svg_height (page false false [left_edge_ball]))
       left_edge_ball ->
     Ball.vel_y b' = - Ball.vel_y left_edge_ball).
Proof.
  apply (C4_left_bounce (page false false [left_edge_ball]) 0 left_edge_ball).
  - reflexivity.
  - reflexivity.
  - unfold violates_left; cbn; lia.
  - cbn; lia.
Defined.

(* ------------------------------------------------------------------ *)
(** ** C6: a dragged ball is released by a boundary impact *)

(** C6: for every dragged ball whose disk violates a boundary when
    [handle_collisions] runs, the result is that of [stop_drag] followed
    by the resolution of the released ball: the ball is no longer
    dragged, its velocity is the drag velocity with the component normal
    to a violated boundary negated, and its position is clamped. *)
Theorem C6_boundary_impact_releases
  (w : World) (i : nat) (b : Ball.t) (d : DragState.t) :
  nth_error (balls w) i = Some b ->
  Ball.drag_state b = Some d ->
  violates (svg_width w) (svg_height w) b ->
  exists b0 b',
    Ball.stop_drag b = Some b0 /\
    Ball.vel_x b0 = DragState.vel_x d /\
    Ball.vel_y b0 = DragState.vel_y d /\
    Ball.drag_state b0 = None /\
    nth_error (balls (handle_collisions w)) i = Some b' /\
    b' = collide_ball (svg_width w) (svg_height w) b0 /\
    Ball.drag_state b' = None /\
    (2 * Ball.r b + 1 < svg_width w ->
     (violates_left b \/ violates_right (svg_width w) b ->
      Ball.vel_x b' = - DragState.vel_x d) /\
     (~ violates_left b -> ~ violates_right (svg_width w) b ->
      Ball.vel_x b' = DragState.vel_x d)) /\
    (2 * Ball.r b + 1 < svg_height w ->
     (violates_top b \/ violates_bottom (svg_height w) b ->
      Ball.vel_y b' = - DragState.vel_y d) /\
     (~ violates_top b -> ~ violates_bottom (svg_height w) b ->
      Ball.vel_y b' = DragState.vel_y d)) /\
    (fits (svg_width w) (svg_height w) b ->
     inside (svg_width w) (svg_height w) b' /\
     inset_where_violated (svg_width w) (svg_height w) b b').
Proof.
  intros Hb Hd Hv.
  exists (Ball.commit_drag d b), (collide_ball (svg_width w) (svg_height w) b).
  pose proof (collide_ball_releases _ _ b d Hd Hv) as Heq.
  assert (Hfree0 : Ball.drag_state (Ball.commit_drag d b) = None)
    by reflexivity.
  pose proof (collide_ball_free_velocity (svg_width w) (svg_height w)
                (Ball.commit_drag d b) Hfree0) as [Hvx Hvy].
  cbv zeta in Hvx, Hvy. rewrite <- Heq in Hvx, Hvy.
  split; [unfold Ball.stop_drag; now rewrite Hd |].
  split; [reflexivity |]. split; [reflexivity |]. split; [reflexivity |].
  split; [now apply handle_collisions_nth |].
  split; [exact Heq |].
  split; [rewrite Heq; now apply collide_ball_free |].
  split; [exact Hvx |].
  split; [exact Hvy |].
  apply collide_ball_inside.
Qed.

Lemma C6_boundary_impact_witness :
  exists b0 b',
    Ball.stop_drag dragged_ball = Some b0 /\
    Ball.vel_x b0 = -7 /\ Ball.vel_y b0 = 3 /\
    Ball.drag_state b0 = None /\
    nth_error (balls (handle_collisions (page true true [dragged_ball]))) 0
    = Some b' /\
    Ball.drag_state b' = None /\
    Ball.vel_x b' = 7 /\ Ball.vel_y b' = 3 /\ Ball.cx b' = 21.
Proof.
  destruct (C6_boundary_impact_releases
              (page true true [dragged_ball]) 0 dragged_ball
              (DragState.mk 5 5 (-7) 3 15 308))
    as (b0 & b' & Hs & Hx0 & Hy0 & Hd0 & Hn & Heq & Hd' & _).
  - reflexivity.
  - reflexivity.
  - left. unfold violates_left. cbn. lia.
  - exists b0, b'. subst b'.
    injection Hs as <-.
    repeat split; try assumption; reflexivity.
Defined.

(* ------------------------------------------------------------------ *)
(** ** C7: the first tick under gravity *)

(** C7: a single free ball at (400, 300) with radius 20 and zero
    velocity, gravity on and resistance off, in a viewport that the moved
    ball does not touch, has velocity (0, 1) and position (400, 301)
    after one call of [advance_frame]. *)
Theorem C7_first_tick_under_gravity (w : World) (b : Ball.t) :
  balls w = [b] ->
  Ball.drag_state b = None ->
  Ball.vel_x b = 0 -> Ball.vel_y b = 0 ->
  Ball.cx b = 400 -> Ball.cy b = 300 -> Ball.r b = 20 ->
  gravity_checkbox w = true ->
  resistance_checkbox w = false ->
  420 < svg_width w -> 321 < svg_height w ->
  exists b',
    balls (advance_frame w) = [b'] /\
    Ball.vel_x b' = 0 /\ Ball.vel_y b' = 1 /\
    Ball.cx b' = 400 /\ Ball.cy b' = 301 /\
    Ball.drag_state b' = None.
Proof.
  intros Hbs Hd Hvx Hvy Hx Hy Hr Hg Hrs Hw Hh.
  destruct w as [mx my bs sel size width height g rs].
  unfold Ball.cx, Ball.cy, Ball.r in *.
  open_ball b. subst.
  eexists. split.
  - unfold advance_frame, handle_collisions. cbn.
    frame_stages. resolve_stages. reflexivity.
  - repeat split; reflexivity.
Qed.

(** The scenario of the specification, with the ball that [add_ball]
    creates on an empty page of 800 x 600. *)
Lemma C7_first_tick_witness :
  exists b',
    balls (advance_frame (world_of (add_ball (empty_page true false))))
    = [b'] /\
    Ball.vel_x b' = 0 /\ Ball.vel_y b' = 1 /\
    Ball.cx b' = 400 /\ Ball.cy b' = 301 /\
    Ball.drag_state b' = None.
Proof.
  apply (C7_first_tick_under_gravity
           (world_of (add_ball (empty_page true false)))
           (highlight_ball (Ball.new 400 300 20)));
    try reflexivity; cbn; lia.
Defined.

(* ------------------------------------------------------------------ *)
(** ** The resistance step *)

(** The source's test compares the signed acceleration with [|v|]: for
    an acceleration that is not positive it never fires. *)
Lemma damp_nonpositive (v accel : Z) :
  accel <= 0 -> damp v accel = v - accel.
Proof.
  intros H. unfold damp. split_tests; lia.
Qed.

(** For an acceleration that is not negative the source's test is the
    specification's. *)
Lemma damp_nonnegative (v accel : Z) :
  0 <= accel -> damp v accel = spec_damp v accel.
Proof.
  intros H. unfold damp, spec_damp. rewrite (Z.abs_eq accel) by exact H.
  reflexivity.
Qed.

(** One iteration on a dragged ball: gravity and resistance are skipped,
    the ball is put at the mouse position minus the offset, and the drag
    state is updated; the velocity is not touched. *)
Lemma advance_ball_dragged (mx my : Z) (g rs : bool) (b : Ball.t)
  (d : DragState.t) :
  Ball.drag_state b = Some d ->
  advance_ball mx my g rs b
  = Ball.mk (Ball.vel_x b) (Ball.vel_y b)
      (Circle.mk (mx - DragState.offset_x d) (my - DragState.offset_y d)
         (Ball.r b) (Circle.fill (Ball.elem b))
         (Circle.stroke (Ball.elem b)) (Circle.stroke_width (Ball.elem b)))
      (Some (DragState.update_velocity mx my d)).
Proof.
  unfold Ball.r. open_ball b. intros ->.
  destruct g, rs; frame_stages; reflexivity.
Qed.

(** What [advance_ball] does to the velocity of a ball that is not
    dragged. *)
Lemma advance_ball_free_velocity (mx my : Z) (g rs : bool) (b : Ball.t) :
  Ball.drag_state b = None ->
  let b1 := apply_gravity g b in
  let b' := advance_ball mx my g rs b in
  Ball.vel_x b1 = Ball.vel_x b /\
  Ball.vel_y b1 = (if g then Ball.vel_y b + 1 else Ball.vel_y b) /\
  Ball.r b1 = Ball.r b /\
  Ball.vel_x b'
  = (if rs then damp (Ball.vel_x b1) (x_accel b1) else Ball.vel_x b1) /\
  Ball.vel_y b'
  = (if rs then damp (Ball.vel_y b1) (y_accel b1) else Ball.vel_y b1).
Proof.
  intros Hd.
  destruct b as [vx vy e d]; cbn in *; subst d.
  destruct g, rs; frame_stages; repeat split; reflexivity.
Qed.

(* ------------------------------------------------------------------ *)
(** ** C1: the clamp of the resistance step *)

(** C1 (the code departs from it): a free ball of radius 150 with
    velocity (-5, 60) has a computed [x_accel] of -9, of larger magnitude
    than the velocity component -5.  The specified clamp gives 0; the
    source's test [x_accel > Math.abs(vel_x)] is false for the negative
    acceleration, so the acceleration is subtracted and the component
    overshoots past zero to 4.  For the mirrored ball with velocity
    (5, 60) the acceleration is 9 and the component is snapped to 0, as
    the specification's example says. *)
Theorem C1_negative_component_overshoots :
  x_accel falling_ball = -9 /\
  Z.abs (x_accel falling_ball) > Z.abs (Ball.vel_x falling_ball) /\
  spec_damp (Ball.vel_x falling_ball) (x_accel falling_ball) = 0 /\
  Ball.vel_x (apply_resistance true falling_ball) = 4 /\
  (exists b',
     balls (advance_frame (page false true [falling_ball])) = [b'] /\
     Ball.vel_x b' = 4) /\
  x_accel falling_ball_right = 9 /\
  Ball.vel_x (apply_resistance true falling_ball_right) = 0.
Proof.
  assert (Hx : x_accel falling_ball = -9) by (vm_compute; reflexivity).
  assert (Hr : x_accel falling_ball_right = 9) by (vm_compute; reflexivity).
  split; [exact Hx |].
  split; [rewrite Hx; vm_compute; reflexivity |].
  split; [rewrite Hx; vm_compute; reflexivity |].
  split; [vm_compute; reflexivity |].
  split; [eexists; split; vm_compute; reflexivity |].
  split; [exact Hr |].
  vm_compute; reflexivity.
Qed.

(* ------------------------------------------------------------------ *)
(** ** C2: the drag protocol *)

(** [start_drag] zeroes the velocity and records the offset, but the
    drag state it creates holds (0, 0) as previous mouse position. *)
Lemma start_drag_state (px py : Z) (b : Ball.t) :
  let b1 := Ball.start_drag px py b in
  Ball.vel_x b1 = 0 /\ Ball.vel_y b1 = 0 /\
  Ball.drag_state b1
  = Some (DragState.mk (px - Ball.cx b) (py - Ball.cy b) 0 0 0 0).
Proof.
  repeat split.
Qed.

(** After [start_drag] at (px, py), one frame with the mouse at
    (px2, py2) and [stop_drag], the velocity is (px2, py2). *)
Lemma first_estimate_is_position (px py px2 py2 : Z) (g rs : bool)
  (b : Ball.t) :
  exists b',
    Ball.stop_drag (advance_ball px2 py2 g rs (Ball.start_drag px py b))
    = Some b' /\
    Ball.vel_x b' = px2 /\ Ball.vel_y b' = py2 /\
    Ball.drag_state b' = None.
Proof.
  rewrite (advance_ball_dragged px2 py2 g rs (Ball.start_drag px py b) _
             eq_refl).
  eexists. split; [reflexivity |]. cbn. repeat split; lia.
Qed.

(** From the second frame on the estimate is the displacement of the
    mouse, and [stop_drag] commits it. *)
Lemma later_estimate_is_displacement (px py px2 py2 px3 py3 : Z)
  (g rs : bool) (b : Ball.t) :
  exists b',
    Ball.stop_drag
      (advance_ball px3 py3 g rs
         (advance_ball px2 py2 g rs (Ball.start_drag px py b)))
    = Some b' /\
    Ball.vel_x b' = px3 - px2 /\ Ball.vel_y b' = py3 - py2 /\
    Ball.drag_state b' = None.
Proof.
  rewrite (advance_ball_dragged px2 py2 g rs (Ball.start_drag px py b) _
             eq_refl).
  erewrite (advance_ball_dragged px3 py3 g rs) by reflexivity.
  eexists. split; [reflexivity |]. cbn. repeat split; lia.
Qed.

(** C2 (the code departs from it): the button goes down on a resting
    ball at (100, 100) with the mouse at (100, 100), the mouse moves to
    (103, 104), one frame passes, the button goes up.  [start_drag]
    zeroes the velocity and sets the offset to (0, 0) as specified, but
    stores (0, 0), not (100, 100), as previous mouse position; the single
    [update_velocity] therefore estimates (103, 104), the mouse position,
    instead of the displacement (3, 4), and [stop_drag] commits it. *)
Theorem C2_first_estimate_is_mouse_position :
  let w0 := page false false [free_ball 100 100 20 0 0] in
  (exists b1,
     balls (run [MouseMove 100 100; MouseDown 0] w0) = [b1] /\
     Ball.vel_x b1 = 0 /\ Ball.vel_y b1 = 0 /\
     Ball.drag_state b1 = Some (DragState.mk 0 0 0 0 0 0)) /\
  (exists b2,
     balls (run [MouseMove 100 100; MouseDown 0; MouseMove 103 104; Tick] w0)
     = [b2] /\
     Ball.drag_state b2 = Some (DragState.mk 0 0 103 104 103 104)) /\
  (exists b3,
     balls (run quick_click w0) = [b3] /\
     Ball.vel_x b3 = 103 /\ Ball.vel_y b3 = 104 /\
     Ball.drag_state b3 = None /\
     (Ball.vel_x b3, Ball.vel_y b3) <> (103 - 100, 104 - 100)).
Proof.
  cbv zeta. split; [| split].
  - eexists. repeat split; vm_compute; reflexivity.
  - eexists. repeat split; vm_compute; reflexivity.
  - eexists. split; [vm_compute; reflexivity |].
    repeat split; try (vm_compute; reflexivity).
    vm_compute. discriminate.
Qed.

(* ------------------------------------------------------------------ *)
(** ** C5: the acceleration of the resistance step *)

(** C5, as stated, fails: for a free ball of radius 10 with velocity
    (100, 0) the specified formula, with the diameter 20 as last factor,
    gives an acceleration of 40; the source multiplies by the radius and
    computes 20, so that the velocity goes from 100 to 80.  The velocity
    that enters the formula is the one the gravity step leaves: with
    gravity on, a ball of radius 10 and velocity (100, 70) loses 25 in x,
    the value of the formula (with the radius) at (100, 71), while at
    (100, 70) the formula gives 24. *)
Lemma C5_counterexample :
  (spec_accel (Ball.vel_x fast_ball) (Ball.vel_x fast_ball)
              (Ball.vel_y fast_ball) (Ball.r fast_ball) = 40 /\
   x_accel fast_ball = 20 /\
   exists b',
     balls (advance_frame (page false true [fast_ball])) = [b'] /\
     Ball.vel_x fast_ball - Ball.vel_x b' = 20 /\
     Ball.vel_x fast_ball - Ball.vel_x b'
     <> spec_accel (Ball.vel_x fast_ball) (Ball.vel_x fast_ball)
                   (Ball.vel_y fast_ball) (Ball.r fast_ball)) /\
  (Num.round_drag (Ball.vel_x gliding_ball) (Ball.vel_x gliding_ball)
                  (Ball.vel_y gliding_ball) (Ball.r gliding_ball) = 24 /\
   Num.round_drag (Ball.vel_x gliding_ball) (Ball.vel_x gliding_ball)
                  (Ball.vel_y gliding_ball + 1) (Ball.r gliding_ball) = 25 /\
   exists b',
     balls (advance_frame (page true true [gliding_ball])) = [b'] /\
     Ball.vel_x gliding_ball - Ball.vel_x b' = 25).
Proof.
  split.
  - split; [vm_compute; reflexivity |].
    split; [vm_compute; reflexivity |].
    eexists. split; [vm_compute; reflexivity |].
    split; [vm_compute; reflexivity |].
    vm_compute. discriminate.
  - split; [vm_compute; reflexivity |].
    split; [vm_compute; reflexivity |].
    eexists. split; vm_compute; reflexivity.
Qed.

(** C5 (amended): for every ball that is not dragged, with resistance
    enabled, the acceleration of a velocity component [v] is
    [round(speed * v * k * radius)], where [speed = sqrt(vy^2 + vx^2)]
    and [v] are taken from the velocity the resistance step reads (after
    the gravity increment of the same frame when gravity is on),
    [k = 0.0002], and [radius] is the "r" attribute itself, not twice it:
    whenever the magnitude of this acceleration does not exceed that of
    the component, the component decreases by exactly this amount.  The
    formula is written out in binary64, multiplied left to right as in
    the source. *)
Theorem C5_resistance_acceleration
  (mx my : Z) (g : bool) (b : Ball.t) :
  Ball.drag_state b = None ->
  let vx := Ball.vel_x b in
  let vy := if g then Ball.vel_y b + 1 else Ball.vel_y b in
  let speed :=
    PrimFloat.sqrt
      (PrimFloat.add (PrimFloat.mul (Num.of_Z vy) (Num.of_Z vy))
                     (PrimFloat.mul (Num.of_Z vx) (Num.of_Z vx))) in
  let accel (v : Z) :=
    Num.Math_round
      (PrimFloat.mul
         (PrimFloat.mul (PrimFloat.mul speed (Num.of_Z v)) Num.k_resistance)
         (Num.of_Z (Ball.r b))) in
  let b' := advance_ball mx my g true b in
  (Z.abs (accel vx) <= Z.abs vx -> vx - Ball.vel_x b' = accel vx) /\
  (Z.abs (accel vy) <= Z.abs vy -> vy - Ball.vel_y b' = accel vy).
Proof.
  intros Hd.
  pose proof (advance_ball_free_velocity mx my g true b Hd)
    as (H1 & H2 & H3 & Hx & Hy).
  cbv zeta in *. rewrite Hx, Hy. unfold x_accel, y_accel.
  rewrite H1, H2, H3.
  change (Num.Math_round
            (PrimFloat.mul
               (PrimFloat.mul
                  (PrimFloat.mul
                     (PrimFloat.sqrt
                        (PrimFloat.add
                           (PrimFloat.mul
                              (Num.of_Z (if g then Ball.vel_y b + 1
                                         else Ball.vel_y b))
                              (Num.of_Z (if g then Ball.vel_y b + 1
                                         else Ball.vel_y b)))
                           (PrimFloat.mul (Num.of_Z (Ball.vel_x b))
                                          (Num.of_Z (Ball.vel_x b)))))
                     (Num.of_Z (Ball.vel_x b))) Num.k_resistance)
               (Num.of_Z (Ball.r b))))
    with (Num.round_drag (Ball.vel_x b) (Ball.vel_x b)
            (if g then Ball.vel_y b + 1 else Ball.vel_y b) (Ball.r b)).
  change (Num.Math_round
            (PrimFloat.mul
               (PrimFloat.mul
                  (PrimFloat.mul
                     (PrimFloat.sqrt
                        (PrimFloat.add
                           (PrimFloat.mul
                              (Num.of_Z (if g then Ball.vel_y b + 1
                                         else Ball.vel_y b))
                              (Num.of_Z (if g then Ball.vel_y b + 1
                                         else Ball.vel_y b)))
                           (PrimFloat.mul (Num.of_Z (Ball.vel_x b))
                                          (Num.of_Z (Ball.vel_x b)))))
                     (Num.of_Z (if g then Ball.vel_y b + 1
                                else Ball.vel_y b))) Num.k_resistance)
               (Num.of_Z (Ball.r b))))
    with (Num.round_drag (if g then Ball.vel_y b + 1 else Ball.vel_y b)
            (Ball.vel_x b)
            (if g then Ball.vel_y b + 1 else Ball.vel_y b) (Ball.r b)).
  unfold damp.
  split; intros H; split_tests; lia.
Qed.

Lemma C5_resistance_acceleration_witness :
  let vx := Ball.vel_x gliding_ball in
  let vy := if true then Ball.vel_y gliding_ball + 1
            else Ball.vel_y gliding_ball in
  let speed :=
    PrimFloat.sqrt
      (PrimFloat.add (PrimFloat.mul (Num.of_Z vy) (Num.of_Z vy))
                     (PrimFloat.mul (Num.of_Z vx) (Num.of_Z vx))) in
  let accel (v : Z) :=
    Num.Math_round
      (PrimFloat.mul
         (PrimFloat.mul (PrimFloat.mul speed (Num.of_Z v)) Num.k_resistance)
         (Num.of_Z (Ball.r gliding_ball))) in
  let b' := advance_ball 0 0 true true gliding_ball in
  (Z.abs (accel vx) <= Z.abs vx -> vx - Ball.vel_x b' = accel vx) /\
  (Z.abs (accel vy) <= Z.abs vy -> vy - Ball.vel_y b' = accel vy).
Proof.
  apply (C5_resistance_acceleration 0 0 true gliding_ball).
  reflexivity.
Defined.

(* ------------------------------------------------------------------ *)
(** ** Lists of balls updated in place *)

Lemma update_at_length (k : nat) (f : Ball.t -> Ball.t) (bs : list Ball.t) :
  List.length (update_at k f bs) = List.length bs.
Proof.
  revert k; induction bs as [| b bs IH]; intros [| k]; cbn; auto.
Qed.

Lemma update_at_nth_same (k : nat) (f : Ball.t -> Ball.t) (bs : list Ball.t)
  (b : Ball.t) :
  nth_error bs k = Some b -> nth_error (update_at k f bs) k = Some (f b).
Proof.
  revert k; induction bs as [| a bs IH]; intros [| k]; cbn;
    try discriminate; auto.
  now intros [= ->].
Qed.

Lemma update_at_Forall (P : Ball.t -> Prop) (k : nat) (f : Ball.t -> Ball.t)
  (bs : list Ball.t) :
  (forall b, P b -> P (f b)) -> Forall P bs -> Forall P (update_at k f bs).
Proof.
  intros Hf. revert k; induction bs as [| a bs IH]; intros k H; cbn.
  - destruct k; constructor.
  - inversion H; subst. destruct k; constructor; auto.
Qed.

Lemma map_update_at_absorb (f g : Ball.t -> Ball.t) (k : nat)
  (bs : list Ball.t) :
  (forall b, f (g b) = f b) -> map f (update_at k g bs) = map f bs.
Proof.
  intros Hfg. revert k; induction bs as [| a bs IH]; intros [| k]; cbn;
    auto; now rewrite ?Hfg, ?IH.
Qed.

Lemma ball_at_nth (bs : list Ball.t) (n : Z) :
  1 <= n <= Z.of_nat (List.length bs) ->
  exists b,
    ball_at bs (n - 1) = Some b /\
    nth_error bs (Z.to_nat (n - 1)) = Some b.
Proof.
  intros Hn. unfold ball_at.
  destruct (Z.ltb_spec (n - 1) 0) as [Hlt | _]; [lia |].
  destruct (nth_error bs (Z.to_nat (n - 1))) as [b |] eqn:E.
  - now exists b.
  - apply nth_error_None in E. lia.
Qed.

(* ------------------------------------------------------------------ *)
(** ** select_ball *)

Lemma clear_highlight_ball (b : Ball.t) :
  clear_ball (highlight_ball b) = clear_ball b.
Proof. reflexivity. Qed.

Lemma clear_clear_ball (b : Ball.t) : clear_ball (clear_ball b) = clear_ball b.
Proof. reflexivity. Qed.

Lemma highlighted_count_cleared (bs : list Ball.t) :
  highlighted_count (map clear_ball bs) = 0%nat.
Proof.
  unfold highlighted_count. induction bs as [| b bs IH]; cbn; auto.
Qed.

Lemma highlighted_count_one (k : nat) (bs : list Ball.t) :
  (k < List.length bs)%nat ->
  highlighted_count (update_at k highlight_ball (map clear_ball bs)) = 1%nat.
Proof.
  revert k; induction bs as [| b bs IH]; intros k Hk; cbn in Hk; [lia |].
  destruct k as [| k]; cbn.
  - unfold highlighted_count; cbn. f_equal.
    apply (highlighted_count_cleared bs).
  - unfold highlighted_count in *; cbn. apply IH. lia.
Qed.

(** The result of [select_ball] for a number that names a ball. *)
Lemma select_ball_returns (ball_num : Z) (w : World) (b : Ball.t) :
  ball_at (balls w) (ball_num - 1) = Some b ->
  select_ball ball_num w
  = Returned
      (mkWorld (mouse_x w) (mouse_y w)
         (update_at (Z.to_nat (ball_num - 1)) highlight_ball
            (map clear_ball (balls w)))
         ball_num (Ball.r b) (svg_width w) (svg_height w)
         (gravity_checkbox w) (resistance_checkbox w)).
Proof.
  intros Hb. unfold select_ball. cbn. now rewrite Hb.
Qed.

(** Whatever [select_ball] does, it maps a property of balls that
    ignores the outline from the old list to the new one. *)
Lemma select_ball_Forall (P : Ball.t -> Prop) (ball_num : Z) (w : World) :
  (forall b, P b -> P (clear_ball b)) ->
  (forall b, P b -> P (highlight_ball b)) ->
  Forall P (balls w) ->
  Forall P (balls (world_of (select_ball ball_num w))).
Proof.
  intros Hc Hh Hall. unfold select_ball. cbn.
  destruct (ball_at (balls w) (ball_num - 1)); cbn; [| exact Hall].
  apply update_at_Forall; [exact Hh |].
  apply Forall_map. revert Hall. apply Forall_impl. exact Hc.
Qed.

(** For a number that names a ball, [select_ball] returns with the
    size control at the radius of that ball and the ball outlined. *)
Lemma select_ball_valid (ball_num : Z) (w : World) :
  1 <= ball_num <= Z.of_nat (List.length (balls w)) ->
  exists b w',
    ball_at (balls w) (ball_num - 1) = Some b /\
    select_ball ball_num w = Returned w' /\
    ball_size_range w' = Ball.r b /\
    ball_at (balls w') (ball_num - 1) = Some (highlight_ball (clear_ball b)).
Proof.
  intros Hn.
  destruct (ball_at_nth (balls w) ball_num Hn) as (b & Hb & Hnth).
  eexists b, _. split; [exact Hb |].
  split; [exact (select_ball_returns ball_num w b Hb) |].
  split; [reflexivity |].
  cbn. unfold ball_at.
  destruct (Z.ltb_spec (ball_num - 1) 0); [lia |].
  apply update_at_nth_same. now apply map_nth_error.
Qed.

(* ------------------------------------------------------------------ *)
(** ** C8: selecting a ball twice *)

(** C8: for every number that names a ball of the list (the source
    counts from 1), [select_ball] returns, a second call leaves the page
    exactly as the first one did, the size control holds the radius of
    the selected ball, and exactly one ball carries the outline, namely
    the selected one. *)
Theorem C8_select_ball_idempotent (ball_num : Z) (w : World) :
  1 <= ball_num <= Z.of_nat (List.length (balls w)) ->
  exists b w1,
    ball_at (balls w) (ball_num - 1) = Some b /\
    select_ball ball_num w = Returned w1 /\
    select_ball ball_num w1 = Returned w1 /\
    ball_size_range w1 = Ball.r b /\
    highlighted_count (balls w1) = 1%nat /\
    exists b1,
      ball_at (balls w1) (ball_num - 1) = Some b1 /\
      Circle.highlighted (Ball.elem b1) = true /\
      Ball.r b1 = Ball.r b.
Proof.
  intros Hn.
  destruct (ball_at_nth (balls w) ball_num Hn) as (b & Hb & Hnth).
  assert (Hk : (Z.to_nat (ball_num - 1) < List.length (balls w))%nat) by lia.
  pose proof (select_ball_returns ball_num w b Hb) as H1.
  set (bs1 := update_at (Z.to_nat (ball_num - 1)) highlight_ball
                (map clear_ball (balls w))) in *.
  assert (Hnth1 : nth_error bs1 (Z.to_nat (ball_num - 1))
                  = Some (highlight_ball (clear_ball b))).
  { apply update_at_nth_same. now apply map_nth_error. }
  assert (Hb1 : ball_at bs1 (ball_num - 1)
                = Some (highlight_ball (clear_ball b))).
  { unfold ball_at.
    destruct (Z.ltb_spec (ball_num - 1) 0); [lia | exact Hnth1]. }
  eexists b, _. split; [exact Hb |]. split; [exact H1 |].
  split; [| split; [reflexivity | split]].
  - rewrite (select_ball_returns ball_num _ (highlight_ball (clear_ball b)))
      by exact Hb1.
    cbn. f_equal. f_equal.
    fold bs1. unfold bs1 at 1.
    rewrite (map_update_at_absorb clear_ball highlight_ball)
      by exact clear_highlight_ball.
    rewrite map_map. reflexivity.
  - cbn. now apply highlighted_count_one.
  - exists (highlight_ball (clear_ball b)). cbn.
    split; [exact Hb1 |]. split; reflexivity.
Qed.

Lemma C8_select_ball_witness :
  exists b w1,
    ball_at (balls (page false false [corner_ball; fast_ball; tall_ball]))
            (2 - 1) = Some b /\
    select_ball 2 (page false false [corner_ball; fast_ball; tall_ball])
    = Returned w1 /\
    select_ball 2 w1 = Returned w1 /\
    ball_size_range w1 = Ball.r b /\
    highlighted_count (balls w1) = 1%nat /\
    exists b1,
      ball_at (balls w1) (2 - 1) = Some b1 /\
      Circle.highlighted (Ball.elem b1) = true /\
      Ball.r b1 = Ball.r b.
Proof.
  apply (C8_select_ball_idempotent 2
           (page false false [corner_ball; fast_ball; tall_ball])).
  cbn. lia.
Defined.

(* ------------------------------------------------------------------ *)
(** ** infinite_improbability_drive *)

(** *** Products with a draw, in binary64

    [Math.random() * n] is a product of two doubles.  The lemmas below
    follow the rounding of that product through the specification of
    binary64 ([SpecFloat]), which the primitive operations obey. *)

Section Doubles.

Import SpecFloat.

Let prec := FloatOps.prec.
Let emax := FloatOps.emax.

Lemma digits2_pos_size (p : positive) : digits2_pos p = Pos.size p.
Proof.
  induction p as [p IH | p IH |]; cbn; now rewrite ?IH.
Qed.

(** A positive number of [d] binary digits lies in [2^(d-1), 2^d). *)
Lemma digits2_pos_bounds (p : positive) :
  2 ^ (Z.pos (digits2_pos p) - 1) <= Z.pos p < 2 ^ Z.pos (digits2_pos p).
Proof.
  rewrite digits2_pos_size.
  pose proof (Pos.size_gt p) as Hgt. pose proof (Pos.size_le p) as Hle.
  apply Pos2Z.pos_lt_pos in Hgt. apply Pos2Z.pos_le_pos in Hle.
  rewrite Pos2Z.inj_pow in Hgt, Hle. rewrite (Pos2Z.inj_xO p) in Hle.
  split; [| exact Hgt].
  replace (Z.pos (Pos.size p)) with (Z.succ (Z.pos (Pos.size p) - 1)) in Hle
    by lia.
  rewrite Z.pow_succ_r in Hle by lia. lia.
Qed.

Lemma iter_xO_value (m d : positive) :
  Z.pos (Pos.iter xO m d) = Z.pos m * 2 ^ Z.pos d.
Proof.
  induction d as [| d IH] using Pos.peano_ind.
  - cbn. rewrite Z.pow_1_r. lia.
  - rewrite Pos.iter_succ, (Pos2Z.inj_xO (Pos.iter xO m d)), IH, Pos2Z.inj_succ.
    rewrite Z.pow_succ_r by lia. lia.
Qed.

Lemma iter_xO_digits (m d : positive) :
  digits2_pos (Pos.iter xO m d) = (digits2_pos m + d)%positive.
Proof.
  induction d as [| d IH] using Pos.peano_ind.
  - cbn. lia.
  - rewrite Pos.iter_succ. cbn. rewrite IH. lia.
Qed.

(** Monotonicity of powers of two, for comparing digit counts. *)
Lemma pow2_lt_exponent (a b : Z) : 0 <= a -> 2 ^ a < 2 ^ b -> a < b.
Proof.
  intros Ha H. apply (Z.pow_lt_mono_r_iff 2); try lia.
  destruct (Z_lt_le_dec b 0) as [Hb | Hb]; [| exact Hb].
  rewrite (Z.pow_neg_r 2 b) in H by lia.
  pose proof (Z.pow_nonneg 2 a). lia.
Qed.


Lemma shr_1_floor (M p : Z) (mrs : shr_record) :
  0 <= p -> Num.shr_floor M p mrs -> Num.shr_floor M (p + 1) (shr_1 mrs).
Proof.
  intros Hp [H0 HM]. unfold Num.shr_floor in *.
  rewrite Z.pow_add_r, Z.pow_1_r by lia.
  pose proof (Z.pow_nonneg 2 p ltac:(lia)) as Hpow.
  destruct mrs as [m r s]. cbn [shr_m] in *.
  destruct m as [| q | q]; [| destruct q as [q | q |] | lia]; cbn [shr_1 shr_m].
  - lia.
  - rewrite (Pos2Z.inj_xI q) in HM. nia.
  - rewrite (Pos2Z.inj_xO q) in HM. nia.
  - nia.
Qed.

Lemma iter_pos_floor (M : Z) (n : positive) :
  forall (p : Z) (mrs : shr_record),
    0 <= p -> Num.shr_floor M p mrs ->
    Num.shr_floor M (p + Z.pos n) (iter_pos shr_1 n mrs).
Proof.
  induction n as [n IH | n IH |]; intros p mrs Hp H; cbn [iter_pos].
  - replace (p + Z.pos n~1) with (p + 1 + Z.pos n + Z.pos n) by lia.
    apply IH; [lia |]. apply IH; [lia |]. now apply shr_1_floor.
  - replace (p + Z.pos n~0) with (p + Z.pos n + Z.pos n) by lia.
    apply IH; [lia |]. now apply IH.
  - now apply shr_1_floor.
Qed.

(** The first step of rounding: the exponent it chooses and the mantissa
    it keeps. *)
Lemma shr_fexp_floor (m e : Z) :
  0 <= m ->
  snd (shr_fexp prec emax m e loc_Exact)
  = Z.max e (fexp prec emax (Zdigits2 m + e)) /\
  Num.shr_floor m (snd (shr_fexp prec emax m e loc_Exact) - e)
            (fst (shr_fexp prec emax m e loc_Exact)).
Proof.
  intros Hm. unfold shr_fexp, shr. cbn [shr_record_of_loc].
  destruct (fexp prec emax (Zdigits2 m + e) - e) as [| q | q] eqn:E;
    cbn [fst snd].
  - split; [lia |]. replace (e - e) with 0 by lia.
    split; cbn [shr_m]; [lia |]. rewrite Z.pow_0_r. lia.
  - split; [lia |]. replace (e + Z.pos q - e) with (0 + Z.pos q) by lia.
    apply iter_pos_floor; [lia |].
    split; cbn [shr_m]; [lia |]. rewrite Z.pow_0_r. lia.
  - split; [lia |]. replace (e - e) with 0 by lia.
    split; cbn [shr_m]; [lia |]. rewrite Z.pow_0_r. lia.
Qed.

Lemma round_nearest_even_bounds (m : Z) (l : location) :
  m <= round_nearest_even m l <= m + 1.
Proof.
  destruct l as [| []]; cbn; try lia. destruct (Z.even m); lia.
Qed.

(** The exponent chosen for a number below [2^53] is not positive. *)
Lemma fexp_nonpositive (m e Q : Z) :
  0 <= m -> e <= 0 -> m < Q * 2 ^ (- e) -> Q <= 2 ^ 53 ->
  Z.max e (fexp prec emax (Zdigits2 m + e)) <= 0.
Proof.
  intros Hm He Hlt HQ. unfold fexp, emin, prec, emax.
  change FloatOps.prec with 53. change FloatOps.emax with 1024.
  destruct m as [| p | p]; cbn [Zdigits2]; [lia | | lia].
  pose proof (digits2_pos_bounds p) as [Hlo _].
  pose proof (Z.pow_nonneg 2 (- e) ltac:(lia)) as Hpow.
  assert (H : 2 ^ (Z.pos (digits2_pos p) - 1) < 2 ^ (53 - e)).
  { replace (53 - e) with (53 + - e) by lia.
    rewrite Z.pow_add_r by lia. nia. }
  apply pow2_lt_exponent in H; lia.
Qed.

(** Rounding a positive number [M * 2^e] that is below the integer
    [N < 2^53] gives zero or a positive double that is at most [N]. *)
Lemma binary_round_aux_below (M : positive) (e N : Z) :
  e <= 0 -> 0 <= N < 2 ^ 53 -> Z.pos M < N * 2 ^ (- e) ->
  match binary_round_aux prec emax false (Z.pos M) e loc_Exact with
  | S754_zero _ => True
  | S754_finite s m' e' => s = false /\ e' <= 0 /\ Z.pos m' <= N * 2 ^ (- e')
  | _ => False
  end.
Proof.
  intros He HN HM. unfold binary_round_aux.
  destruct (shr_fexp_floor (Z.pos M) e ltac:(lia)) as [He1 [H1a H1b]].
  destruct (shr_fexp prec emax (Z.pos M) e loc_Exact) as [mrs1 e1].
  cbn [fst snd] in *.
  assert (He1' : e <= e1 <= 0).
  { split; [lia |]. rewrite He1.
    apply (fexp_nonpositive _ _ N); lia. }
  pose proof (round_nearest_even_bounds (shr_m mrs1)
                (loc_of_shr_record mrs1)) as Hrne.
  set (m1 := round_nearest_even (shr_m mrs1) (loc_of_shr_record mrs1)) in *.
  assert (Hsplit : N * 2 ^ (- e) = N * 2 ^ (- e1) * 2 ^ (e1 - e)).
  { rewrite <- Z.mul_assoc, <- Z.pow_add_r by lia. f_equal. f_equal. lia. }
  pose proof (Z.pow_pos_nonneg 2 (e1 - e) ltac:(lia) ltac:(lia)) as Ht.
  assert (Hm1 : 0 <= m1 <= N * 2 ^ (- e1)) by nia.
  destruct (shr_fexp_floor m1 e1 ltac:(lia)) as [He2 [H2a H2b]].
  destruct (shr_fexp prec emax m1 e1 loc_Exact) as [mrs2 e2].
  cbn [fst snd] in *.
  pose proof (Z.pow_pos_nonneg 2 (- e1) ltac:(lia) ltac:(lia)) as Ht1.
  assert (He2' : e1 <= e2 <= 0).
  { split; [lia |]. rewrite He2.
    apply (fexp_nonpositive _ _ (N + 1)); lia. }
  assert (Hsplit2 : N * 2 ^ (- e1) = N * 2 ^ (- e2) * 2 ^ (e2 - e1)).
  { rewrite <- Z.mul_assoc, <- Z.pow_add_r by lia. f_equal. f_equal. lia. }
  pose proof (Z.pow_pos_nonneg 2 (e2 - e1) ltac:(lia) ltac:(lia)) as Ht2.
  destruct (shr_m mrs2) as [| m2 | m2] eqn:Em2; [exact I | | lia].
  replace (e2 <=? emax - prec) with true
    by (symmetry; apply Z.leb_le; unfold emax, prec;
        change FloatOps.emax with 1024; change FloatOps.prec with 53; lia).
  split; [reflexivity |]. split; [lia |]. nia.
Qed.

Lemma round_sf_below (m : positive) (e N : Z) :
  e <= 0 -> 0 <= N -> Z.pos m <= N * 2 ^ (- e) ->
  0 <= Num.round_sf (S754_finite false m e) <= N.
Proof.
  intros He HN Hm. cbn [Num.round_sf]. cbv zeta.
  destruct (Z.leb_spec 0 e) as [H0 | H0].
  - replace e with 0 in * by lia. rewrite Z.pow_0_r in *. lia.
  - pose proof (Z.pow_pos_nonneg 2 (- e) ltac:(lia) ltac:(lia)) as Ht.
    replace (1 - e) with (1 + - e) by lia.
    rewrite Z.pow_add_r, Z.pow_1_r by lia.
    split.
    + apply Z.div_pos; lia.
    + apply Z.lt_succ_r. apply Z.div_lt_upper_bound; nia.
Qed.


(** A mantissa of exactly 53 digits with an exponent in range is already
    a double. *)
Lemma binary_round_aux_canonical (m : positive) (e : Z) :
  Z.pos (digits2_pos m) = 53 -> -1074 <= e <= 971 ->
  binary_round_aux prec emax false (Z.pos m) e loc_Exact
  = S754_finite false m e /\
  valid_binary prec emax (S754_finite false m e) = true.
Proof.
  intros Hd He.
  assert (Hf : fexp prec emax (Zdigits2 (Z.pos m) + e) = e).
  { unfold fexp, emin, prec, emax.
    change FloatOps.prec with 53. change FloatOps.emax with 1024.
    cbn [Zdigits2]. lia. }
  assert (Hle : (e <=? emax - prec) = true).
  { apply Z.leb_le. unfold emax, prec.
    change FloatOps.emax with 1024. change FloatOps.prec with 53. lia. }
  split.
  - unfold binary_round_aux, shr_fexp. rewrite Hf, Z.sub_diag.
    cbn [shr shr_record_of_loc shr_m loc_of_shr_record round_nearest_even].
    rewrite Hf, Z.sub_diag.
    cbn [shr shr_record_of_loc shr_m]. now rewrite Hle.
  - cbn [valid_binary]. unfold bounded, canonical_mantissa.
    cbn [Zdigits2] in Hf. rewrite Hf, Z.eqb_refl, Hle. reflexivity.
Qed.

(** A positive integer of at most 53 digits, scaled by a power of two in
    range, is a double: [binary_normalize] only aligns its mantissa. *)
Lemma binary_normalize_exact (p : positive) (e : Z) :
  Z.pos (digits2_pos p) <= 53 -> e <= 0 ->
  -1074 <= e + Z.pos (digits2_pos p) - 53 ->
  exists m' e',
    binary_normalize prec emax (Z.pos p) e false = S754_finite false m' e' /\
    e' <= e /\ Z.pos m' = Z.pos p * 2 ^ (e - e') /\
    valid_binary prec emax (S754_finite false m' e') = true.
Proof.
  intros Hd He Hmin.
  cbn [binary_normalize]. unfold binary_round, shl_align.
  assert (Hf : fexp prec emax (Z.pos (digits2_pos p) + e)
               = Z.pos (digits2_pos p) + e - 53).
  { unfold fexp, emin, prec, emax.
    change FloatOps.prec with 53. change FloatOps.emax with 1024. lia. }
  rewrite Hf.
  destruct (Z.pos (digits2_pos p) + e - 53 - e) as [| q | q] eqn:E; [| lia |].
  - destruct (binary_round_aux_canonical p e) as [H1 H2]; [lia | lia |].
    exists p, e. rewrite H1. split; [reflexivity |]. split; [lia |].
    split; [| exact H2]. rewrite Z.sub_diag, Z.pow_0_r. lia.
  - destruct (binary_round_aux_canonical (Pos.iter xO p q)
                (Z.pos (digits2_pos p) + e - 53)) as [H1 H2].
    + rewrite iter_xO_digits. lia.
    + lia.
    + eexists _, _. rewrite H1. split; [reflexivity |]. split; [lia |].
      split; [| exact H2]. rewrite iter_xO_value. f_equal. f_equal. lia.
Qed.

Lemma digits_below_2_53 (p : positive) :
  Z.pos p < 2 ^ 53 -> Z.pos (digits2_pos p) <= 53.
Proof.
  intros H. pose proof (digits2_pos_bounds p) as [Hlo _].
  assert (Hlt : 2 ^ (Z.pos (digits2_pos p) - 1) < 2 ^ 53) by lia.
  apply pow2_lt_exponent in Hlt; lia.
Qed.

(** The double of an integer below [2^53], scaled by [2^e] for [e] -53
    or 0, read back as sign, mantissa and exponent. *)
Lemma scaled_integer_double (z e : Z) :
  0 <= z < 2 ^ 53 -> -53 <= e <= 0 ->
  let x := FloatOps.SF2Prim (binary_normalize prec emax z e false) in
  (z = 0 /\ FloatOps.Prim2SF x = S754_zero false) \/
  exists m' e',
    FloatOps.Prim2SF x = S754_finite false m' e' /\
    e' <= e /\ Z.pos m' = z * 2 ^ (e - e').
Proof.
  intros Hz He. cbv zeta.
  destruct z as [| p | p]; [left | right | lia].
  - split; [reflexivity |]. cbn [binary_normalize].
    now apply FloatAxioms.Prim2SF_SF2Prim.
  - pose proof (digits_below_2_53 p ltac:(lia)) as Hd.
    destruct (binary_normalize_exact p e Hd ltac:(lia) ltac:(lia))
      as (m' & e' & Hn & He' & Hm & Hv).
    exists m', e'. rewrite Hn.
    split; [now apply FloatAxioms.Prim2SF_SF2Prim |]. split; assumption.
Qed.

Lemma Math_round_round_sf (x : PrimFloat.float) :
  Num.Math_round x = Num.round_sf (FloatOps.Prim2SF x).
Proof. reflexivity. Qed.

(** [Math.round(Math.random() * n)], with the product taken in binary64,
    lies between 0 and [n]. *)
Lemma round_scaled_range (k : Num.draw) (n : Z) :
  Num.valid_draw k -> 0 <= n < 2 ^ 53 -> 0 <= Num.round_scaled k n <= n.
Proof.
  intros Hk Hn. unfold Num.round_scaled, Num.valid_draw in *.
  rewrite Math_round_round_sf, FloatAxioms.mul_spec.
  unfold Num.of_draw, Num.of_Z. fold prec. fold emax.
  destruct (scaled_integer_double k (-53) Hk ltac:(lia))
    as [[Hk0 Hzk] | (mk & ek & Hfk & Hek & Hmk)];
    destruct (scaled_integer_double n 0 Hn ltac:(lia))
      as [[Hn0 Hzn] | (mn & en & Hfn & Hen & Hmn)];
    cbv zeta in *;
    match goal with
    | H : FloatOps.Prim2SF _ = _ |- _ => rewrite H
    end;
    match goal with
    | H : FloatOps.Prim2SF _ = _ |- _ => rewrite H
    end; try (cbn; lia).
  unfold FloatAxioms.SF64mul. cbn [SFmul xorb]. fold prec. fold emax.
  pose proof (binary_round_aux_below (mk * mn) (ek + en) n) as Hround.
  assert (Hlt : Z.pos (mk * mn) < n * 2 ^ (- (ek + en))).
  { rewrite Pos2Z.inj_mul, Hmk, Hmn.
    replace (- (ek + en)) with (53 + (-53 - ek) + (0 - en)) by lia.
    rewrite !Z.pow_add_r by lia.
    pose proof (Z.pow_pos_nonneg 2 (-53 - ek) ltac:(lia) ltac:(lia)).
    pose proof (Z.pow_pos_nonneg 2 (0 - en) ltac:(lia) ltac:(lia)).
    assert (Hn0 : 0 < n) by (destruct n; try lia;
                             rewrite Z.mul_0_l in Hmn; lia).
    set (a := 2 ^ (-53 - ek)) in *. set (b := 2 ^ (0 - en)) in *.
    assert (k * a * (n * b) < 2 ^ 53 * a * (n * b)).
    { apply Z.mul_lt_mono_pos_r; [nia |].
      apply Z.mul_lt_mono_pos_r; lia. }
    lia. }
  specialize (Hround ltac:(lia) Hn Hlt).
  destruct (binary_round_aux prec emax false (Z.pos (mk * mn)) (ek + en)
              loc_Exact) as [sz | sz | | s m' e'];
    try contradiction; [cbn; lia |].
  destruct Hround as (-> & He' & Hm').
  apply round_sf_below; lia.
Qed.

End Doubles.

(** The product is rounded to a double before [Math.round] sees it: for
    the draw 5497497476169502 / 2^53 the exact product with 145 lies just
    below 88.5, the binary64 product is 88.5, and the drive assigns the
    radius 89 + 5. *)
Lemma round_scaled_rounds_the_double :
  Num.valid_draw 5497497476169502 /\
  2 * (5497497476169502 * 145) < 177 * 2 ^ 53 /\
  Num.round_scaled 5497497476169502 145 = 89.
Proof.
  split; [unfold Num.valid_draw; split; [lia | reflexivity] |].
  split; vm_compute; reflexivity.
Qed.

Lemma improbable_ball_ranges (width height : Z) (rnd : nat -> Num.draw)
  (n : nat) (b : Ball.t) :
  valid_draws rnd -> 0 <= width < 2 ^ 53 -> 0 <= height < 2 ^ 53 ->
  improbable_ranges width height (improbable_ball width height rnd n b).
Proof.
  intros Hrnd Hw Hh. unfold improbable_ranges, improbable_ball. cbn.
  assert (H145 : 0 <= 145 < 2 ^ 53) by (split; [lia | reflexivity]).
  assert (H50 : 0 <= 50 < 2 ^ 53) by (split; [lia | reflexivity]).
  pose proof (round_scaled_range _ width (Hrnd (n + 3)%nat) Hw).
  pose proof (round_scaled_range _ height (Hrnd (n + 4)%nat) Hh).
  pose proof (round_scaled_range _ 145 (Hrnd (n + 5)%nat) H145).
  pose proof (round_scaled_range _ 50 (Hrnd (n + 6)%nat) H50).
  pose proof (round_scaled_range _ 50 (Hrnd (n + 7)%nat) H50).
  unfold Ball.r, Ball.cx, Ball.cy. cbn. lia.
Qed.

Lemma improbable_balls_ranges (width height : Z) (rnd : nat -> Num.draw)
  (n : nat) (bs : list Ball.t) :
  valid_draws rnd -> 0 <= width < 2 ^ 53 -> 0 <= height < 2 ^ 53 ->
  Forall (improbable_ranges width height)
         (improbable_balls width height rnd n bs).
Proof.
  intros Hrnd Hw Hh. revert n.
  induction bs as [| b bs IH]; intros n; cbn; constructor; auto.
  now apply improbable_ball_ranges.
Qed.

Lemma improbable_balls_length (width height : Z) (rnd : nat -> Num.draw)
  (n : nat) (bs : list Ball.t) :
  List.length (improbable_balls width height rnd n bs) = List.length bs.
Proof.
  revert n; induction bs as [| b bs IH]; intros n; cbn; auto.
Qed.

(** The drive leaves the drag state of every ball as it was. *)
Lemma improbable_balls_drag_state (width height : Z) (rnd : nat -> Num.draw)
  (n : nat) (bs : list Ball.t) :
  map Ball.drag_state (improbable_balls width height rnd n bs)
  = map Ball.drag_state bs.
Proof.
  revert n; induction bs as [| b bs IH]; intros n; cbn; [| rewrite IH];
    reflexivity.
Qed.

Lemma improbable_ranges_clear (width height : Z) (b : Ball.t) :
  improbable_ranges width height b ->
  improbable_ranges width height (clear_ball b).
Proof. exact (fun H => H). Qed.

Lemma improbable_ranges_highlight (width height : Z) (b : Ball.t) :
  improbable_ranges width height b ->
  improbable_ranges width height (highlight_ball b).
Proof. exact (fun H => H). Qed.

Lemma select_ball_length (ball_num : Z) (w : World) :
  List.length (balls (world_of (select_ball ball_num w)))
  = List.length (balls w).
Proof.
  unfold select_ball. cbn.
  destruct (ball_at (balls w) (ball_num - 1)); cbn; [| reflexivity].
  now rewrite update_at_length, length_map.
Qed.

(* ------------------------------------------------------------------ *)
(** ** C9: what the improbability drive assigns *)

(** C9: for every stream of random draws and every viewport (with
    dimensions below 2^53, where the integer model is exact), after
    [infinite_improbability_drive], however it ends, every ball has a
    radius in [5, 150], a centre with 0 <= cx <= width and
    0 <= cy <= height, and velocity components in [0, 50], and the number
    of balls is unchanged; and when the selector names one of the balls,
    the drive returns, the selector is unchanged and the size control
    holds the new radius of the selected ball.  The products with the
    draws are binary64 products. *)
Theorem C9_improbability_ranges (rnd : nat -> Num.draw) (w : World) :
  valid_draws rnd ->
  0 <= svg_width w < 2 ^ 53 -> 0 <= svg_height w < 2 ^ 53 ->
  let w' := world_of (infinite_improbability_drive rnd w) in
  List.length (balls w') = List.length (balls w) /\
  Forall (improbable_ranges (svg_width w) (svg_height w)) (balls w') /\
  (1 <= ball_selector w <= Z.of_nat (List.length (balls w)) ->
   exists b,
     infinite_improbability_drive rnd w = Returned w' /\
     ball_selector w' = ball_selector w /\
     ball_at (balls w') (ball_selector w - 1) = Some b /\
     ball_size_range w' = Ball.r b).
Proof.
  intros Hrnd Hw Hh. cbv zeta.
  unfold infinite_improbability_drive.
  set (w1 := set_balls _ w).
  assert (Hlen : List.length (balls w1) = List.length (balls w))
    by apply improbable_balls_length.
  split; [| split].
  - now rewrite select_ball_length.
  - apply select_ball_Forall;
      [apply improbable_ranges_clear | apply improbable_ranges_highlight |].
    now apply improbable_balls_ranges.
  - intros Hsel.
    assert (Hsel1 : 1 <= ball_selector w1
                    <= Z.of_nat (List.length (balls w1)))
      by (rewrite Hlen; exact Hsel).
    destruct (select_ball_valid (ball_selector w1) w1 Hsel1)
      as (b & w' & Hb & Hret & Hsize & Hb').
    exists (highlight_ball (clear_ball b)). rewrite Hret. cbn [world_of].
    split; [reflexivity |].
    split; [| split; [exact Hb' | now rewrite Hsize]].
    rewrite (select_ball_returns _ _ _ Hb) in Hret.
    injection Hret as <-. reflexivity.
Qed.

Lemma sample_draws_valid : valid_draws sample_draws.
Proof.
  intros n. unfold Num.valid_draw, sample_draws.
  apply Z.mod_pos_bound. reflexivity.
Defined.

Lemma C9_improbability_witness :
  let w := page true true [corner_ball; fast_ball; tall_ball] in
  let w' := world_of (infinite_improbability_drive sample_draws w) in
  List.length (balls w') = List.length (balls w) /\
  Forall (improbable_ranges (svg_width w) (svg_height w)) (balls w') /\
  (1 <= ball_selector w <= Z.of_nat (List.length (balls w)) ->
   exists b,
     infinite_improbability_drive sample_draws w = Returned w' /\
     ball_selector w' = ball_selector w /\
     ball_at (balls w') (ball_selector w - 1) = Some b /\
     ball_size_range w' = Ball.r b).
Proof.
  apply (C9_improbability_ranges sample_draws
           (page true true [corner_ball; fast_ball; tall_ball])).
  - exact sample_draws_valid.
  - split; [cbn; lia | reflexivity].
  - split; [cbn; lia | reflexivity].
Defined.

(* ------------------------------------------------------------------ *)
(** ** The velocity of a dragged ball *)











(* ------------------------------------------------------------------ *)
(** ** C10: a dragged ball has zero velocity *)




(* ================================================================== *)
(** * Further properties of the program *)

(* ------------------------------------------------------------------ *)
(** ** More on lists of balls *)

Lemma update_at_id (k : nat) (f : Ball.t -> Ball.t) (bs : list Ball.t) :
  (forall b, nth_error bs k = Some b -> f b = b) -> update_at k f bs = bs.
Proof.
  revert k; induction bs as [| a bs IH]; intros [| k] H; cbn; auto.
  - now rewrite (H a eq_refl).
  - f_equal. apply IH. intros b Hb. now apply H.
Qed.

Lemma map_update_at_key {A : Type} (key : Ball.t -> A) (f : Ball.t -> Ball.t)
  (k : nat) (bs : list Ball.t) :
  (forall b, key (f b) = key b) -> map key (update_at k f bs) = map key bs.
Proof.
  intros Hf. revert k; induction bs as [| a bs IH]; intros [| k]; cbn;
    auto; now rewrite ?Hf, ?IH.
Qed.

Lemma update_at_last (f : Ball.t -> Ball.t) (bs : list Ball.t) (b : Ball.t) :
  update_at (List.length bs) f (bs ++ [b]) = bs ++ [f b].
Proof.
  induction bs as [| a bs IH]; cbn; [reflexivity | now rewrite IH].
Qed.

Lemma ball_at_last (bs : list Ball.t) (b : Ball.t) :
  ball_at (bs ++ [b]) (Z.of_nat (List.length (bs ++ [b])) - 1) = Some b.
Proof.
  unfold ball_at. rewrite length_app. cbn.
  destruct (Z.ltb_spec (Z.of_nat (List.length bs + 1) - 1) 0); [lia |].
  replace (Z.to_nat (Z.of_nat (List.length bs + 1) - 1))
    with (List.length bs) by lia.
  rewrite nth_error_app2 by lia. now rewrite Nat.sub_diag.
Qed.

Lemma ball_at_out_of_range (bs : list Ball.t) (n : Z) :
  n < 1 \/ Z.of_nat (List.length bs) < n -> ball_at bs (n - 1) = None.
Proof.
  intros H. unfold ball_at.
  destruct (Z.ltb_spec (n - 1) 0); [reflexivity |].
  apply nth_error_None. lia.
Qed.

(* ------------------------------------------------------------------ *)
(** ** add_ball and select_ball *)

(** X1: [add_ball] always returns.  The new ball is appended at the
    middle of the page with radius 20, zero velocity and no drag state;
    it becomes the selected ball (the selector holds its number, the size
    control 20) and the only outlined one; the balls already there keep
    everything but the outline. *)
Theorem X1_add_ball_appends_and_selects (w : World) :
  exists w',
    add_ball w = Returned w' /\
    balls w'
    = map clear_ball (balls w)
      ++ [highlight_ball
            (Ball.new (Z.quot (svg_width w) 2) (Z.quot (svg_height w) 2) 20)] /\
    ball_selector w' = Z.of_nat (List.length (balls w)) + 1 /\
    ball_size_range w' = 20 /\
    highlighted_count (balls w') = 1%nat.
Proof.
  unfold add_ball. cbn.
  set (b := Ball.new _ _ 20).
  rewrite (select_ball_returns _ _ b) by apply (ball_at_last (balls w) b).
  eexists. split; [reflexivity |]. cbn.
  assert (Hk : Z.to_nat (Z.of_nat (List.length (balls w ++ [b])) - 1)
               = List.length (map clear_ball (balls w))).
  { rewrite length_app, length_map. cbn. lia. }
  rewrite Hk, map_app. cbn. rewrite update_at_last.
  split; [reflexivity |].
  split; [rewrite length_app; cbn; lia |].
  split; [reflexivity |].
  unfold highlighted_count. rewrite filter_app, length_app. cbn.
  fold (highlighted_count (map clear_ball (balls w))).
  now rewrite highlighted_count_cleared.
Qed.

(** X2: for a number that names no ball (below 1 or above the number of
    balls) [select_ball] ends with a TypeError, and apart from the
    selector, which is assigned before the error, the page is as before:
    no ball, no outline, not the size control, the mouse position, the
    viewport or a checkbox has changed. *)
Theorem X2_select_ball_out_of_range (ball_num : Z) (w : World) :
  ball_num < 1 \/ Z.of_nat (List.length (balls w)) < ball_num ->
  exists w',
    select_ball ball_num w = Threw w' /\
    set_ball_selector 0 w' = set_ball_selector 0 w /\
    balls w' = balls w /\
    ball_size_range w' = ball_size_range w.
Proof.
  intros H. unfold select_ball. cbn.
  rewrite (ball_at_out_of_range _ _ H).
  eexists. split; [reflexivity |]. repeat split.
Qed.

Lemma X2_select_ball_out_of_range_witness :
  exists w',
    select_ball 3 (page false false [corner_ball; fast_ball]) = Threw w' /\
    set_ball_selector 0 w'
    = set_ball_selector 0 (page false false [corner_ball; fast_ball]) /\
    balls w' = balls (page false false [corner_ball; fast_ball]) /\
    ball_size_range w'
    = ball_size_range (page false false [corner_ball; fast_ball]).
Proof.
  apply (X2_select_ball_out_of_range 3
           (page false false [corner_ball; fast_ball])).
  right. cbn. lia.
Defined.

(** X3: whatever number it is given and however it ends, [select_ball]
    changes nothing of a ball but its outline, keeps the number and the
    order of the balls, and leaves the mouse position, the viewport and
    the checkboxes alone. *)
Theorem X3_select_ball_touches_outlines_only (ball_num : Z) (w : World) :
  let w' := world_of (select_ball ball_num w) in
  map clear_ball (balls w') = map clear_ball (balls w) /\
  List.length (balls w') = List.length (balls w) /\
  mouse_x w' = mouse_x w /\ mouse_y w' = mouse_y w /\
  svg_width w' = svg_width w /\ svg_height w' = svg_height w /\
  gravity_checkbox w' = gravity_checkbox w /\
  resistance_checkbox w' = resistance_checkbox w.
Proof.
  unfold select_ball. cbn.
  destruct (ball_at (balls w) (ball_num - 1)); cbn.
  - rewrite (map_update_at_absorb clear_ball highlight_ball)
      by exact clear_highlight_ball.
    rewrite map_map, update_at_length, length_map.
    repeat split.
  - repeat split.
Qed.

(* ------------------------------------------------------------------ *)
(** ** Mouse events *)

(** X4: a "mouseup" on a ball that is not dragged (never picked up, or
    already released by a wall), or on no ball at all, leaves the whole
    page as it was: the TypeError of [stop_drag] is raised before any
    assignment. *)
Theorem X4_mouseup_on_free_ball (i : nat) (w : World) :
  (forall b, nth_error (balls w) i = Some b -> Ball.drag_state b = None) ->
  handle_event (MouseUp i) w = w.
Proof.
  intros H. cbn. rewrite update_at_id.
  - now destruct w.
  - intros b Hb. unfold mouseup_ball, Ball.stop_drag. now rewrite (H b Hb).
Qed.

Lemma X4_mouseup_on_free_ball_witness :
  handle_event (MouseUp 0) busy_page = busy_page.
Proof.
  apply (X4_mouseup_on_free_ball 0 busy_page).
  intros b Hb. cbn in Hb. injection Hb as <-. reflexivity.
Defined.

(* ------------------------------------------------------------------ *)
(** ** Frames *)

Lemma collide_ball_appearance (width height : Z) (b : Ball.t) :
  appearance (collide_ball width height b) = appearance b.
Proof.
  unfold appearance, Ball.r.
  open_ball b; destruct d; resolve_stages; reflexivity.
Qed.

Lemma advance_ball_appearance (mx my : Z) (g rs : bool) (b : Ball.t) :
  appearance (advance_ball mx my g rs b) = appearance b.
Proof.
  unfold appearance, Ball.r.
  open_ball b; destruct d, g, rs; frame_stages; reflexivity.
Qed.

Lemma appearance_radius (b b' : Ball.t) :
  appearance b' = appearance b -> Ball.r b' = Ball.r b.
Proof.
  unfold appearance. now intros [= -> _ _ _].
Qed.

(** A ball strictly inside the viewport passes all four tests. *)
Lemma collide_ball_unchanged (width height : Z) (b : Ball.t) :
  clear_of_walls width height b -> collide_ball width height b = b.
Proof.
  unfold clear_of_walls, Ball.cx, Ball.cy, Ball.r.
  open_ball b. intros (H1 & H2 & H3 & H4).
  resolve_stages; reflexivity.
Qed.

(** With room for the inset, resolution leaves the ball strictly inside. *)
Lemma collide_ball_clear (width height : Z) (b : Ball.t) :
  fits width height b ->
  clear_of_walls width height (collide_ball width height b).
Proof.
  intros [Hw Hh].
  pose proof (collide_ball_x width height b Hw) as (Hl & Hr & Hx).
  pose proof (collide_ball_y width height b Hh) as (Ht & Hb & Hy).
  pose proof (collide_ball_radius width height b) as Hrad.
  cbv zeta in *. unfold clear_of_walls. rewrite Hrad.
  unfold violates_left, violates_right, violates_top, violates_bottom in *.
  assert (Hcx : 0 < Ball.cx (collide_ball width height b) - Ball.r b /\
                Ball.cx (collide_ball width height b) + Ball.r b < width).
  { destruct (Z_le_gt_dec (Ball.cx b - Ball.r b) 0) as [Hv | Hv].
    - rewrite (Hl Hv); lia.
    - destruct (Z_le_gt_dec width (Ball.cx b + Ball.r b)) as [Hv' | Hv'].
      + rewrite Hr by lia; lia.
      + rewrite Hx by lia; lia. }
  assert (Hcy : 0 < Ball.cy (collide_ball width height b) - Ball.r b /\
                Ball.cy (collide_ball width height b) + Ball.r b < height).
  { destruct (Z_le_gt_dec (Ball.cy b - Ball.r b) 0) as [Hv | Hv].
    - rewrite (Ht Hv); lia.
    - destruct (Z_le_gt_dec height (Ball.cy b + Ball.r b)) as [Hv' | Hv'].
      + rewrite Hb by lia; lia.
      + rewrite Hy by lia; lia. }
  lia.
Qed.

(** Resolution preserves the size of each velocity component of a ball
    that is not dragged. *)
Lemma collide_ball_speed (width height : Z) (b : Ball.t) :
  Ball.drag_state b = None ->
  Z.abs (Ball.vel_x (collide_ball width height b)) = Z.abs (Ball.vel_x b) /\
  Z.abs (Ball.vel_y (collide_ball width height b)) = Z.abs (Ball.vel_y b).
Proof.
  open_ball b. intros ->.
  resolve_stages; rewrite ?Z.abs_opp, ?Z.opp_involutive; split; reflexivity.
Qed.

Lemma advance_frame_nth (w : World) (i : nat) (b : Ball.t) :
  nth_error (balls w) i = Some b ->
  nth_error (balls (advance_frame w)) i
  = Some (collide_ball (svg_width w) (svg_height w)
            (advance_ball (mouse_x w) (mouse_y w)
               (gravity_checkbox w) (resistance_checkbox w) b)).
Proof.
  intros H. unfold advance_frame, handle_collisions. cbn.
  rewrite map_map. now apply (map_nth_error (fun b => collide_ball _ _ _)).
Qed.

Lemma advance_frame_controls (w : World) :
  controls (advance_frame w) = controls w.
Proof. reflexivity. Qed.

(** X5: a frame moves balls and changes velocities and drag states, and
    nothing else: the number and order of the balls, the radius, colour
    and outline of each ball, the selector, the size control, the mouse
    position, the viewport and the checkboxes are as before. *)
Theorem X5_frame_keeps_appearance_and_controls (w : World) :
  map appearance (balls (advance_frame w)) = map appearance (balls w) /\
  List.length (balls (advance_frame w)) = List.length (balls w) /\
  controls (advance_frame w) = controls w.
Proof.
  split; [| split; [| reflexivity]].
  - unfold advance_frame, handle_collisions. cbn.
    rewrite !map_map. apply map_ext. intros b.
    now rewrite collide_ball_appearance, advance_ball_appearance.
  - unfold advance_frame, handle_collisions. cbn. now rewrite !length_map.
Qed.

(** X6: reflection is elastic.  For every ball that is not dragged,
    whatever the size of the viewport and however many boundaries the
    ball violates, [handle_collisions] leaves the absolute value of each
    velocity component unchanged, and the ball stays free. *)
Theorem X6_bounce_keeps_speed (w : World) (i : nat) (b : Ball.t) :
  nth_error (balls w) i = Some b ->
  Ball.drag_state b = None ->
  exists b',
    nth_error (balls (handle_collisions w)) i = Some b' /\
    Z.abs (Ball.vel_x b') = Z.abs (Ball.vel_x b) /\
    Z.abs (Ball.vel_y b') = Z.abs (Ball.vel_y b) /\
    Ball.drag_state b' = None.
Proof.
  intros Hb Hd. eexists. split; [exact (handle_collisions_nth w i b Hb) |].
  destruct (collide_ball_speed (svg_width w) (svg_height w) b Hd) as [Hx Hy].
  split; [exact Hx |]. split; [exact Hy |]. now apply collide_ball_free.
Qed.

Lemma X6_bounce_keeps_speed_witness :
  exists b',
    nth_error (balls (handle_collisions (low_page [corner_ball; tall_ball])))
              1 = Some b' /\
    Z.abs (Ball.vel_x b') = Z.abs (Ball.vel_x tall_ball) /\
    Z.abs (Ball.vel_y b') = Z.abs (Ball.vel_y tall_ball) /\
    Ball.drag_state b' = None.
Proof.
  apply (X6_bounce_keeps_speed (low_page [corner_ball; tall_ball]) 1
           tall_ball); reflexivity.
Defined.

(** X7: when every ball lies strictly inside the viewport,
    [handle_collisions] changes nothing at all; in particular a dragged
    ball away from the walls stays dragged. *)
Theorem X7_no_contact_no_change (w : World) :
  Forall (clear_of_walls (svg_width w) (svg_height w)) (balls w) ->
  handle_collisions w = w.
Proof.
  intros H. unfold handle_collisions.
  replace (map (collide_ball (svg_width w) (svg_height w)) (balls w))
    with (balls w); [now destruct w |].
  rewrite <- (map_id (balls w)) at 1. apply map_ext_in.
  intros b Hb. symmetry. apply collide_ball_unchanged.
  rewrite Forall_forall in H. now apply H.
Qed.

Lemma X7_no_contact_no_change_witness :
  handle_collisions (page true true [fast_ball; thrown_ball])
  = page true true [fast_ball; thrown_ball].
Proof.
  apply (X7_no_contact_no_change (page true true [fast_ball; thrown_ball])).
  repeat constructor; cbn; lia.
Defined.

(** X8: when every ball leaves room for the inset (2r + 1 below width
    and height), resolving twice is resolving once: the first pass leaves
    no ball in contact with a boundary. *)
Theorem X8_resolution_idempotent (w : World) :
  Forall (fits (svg_width w) (svg_height w)) (balls w) ->
  handle_collisions (handle_collisions w) = handle_collisions w.
Proof.
  intros H. unfold handle_collisions, set_balls. cbn.
  f_equal. rewrite map_map.
  apply map_ext_in. intros b Hb.
  apply collide_ball_unchanged, collide_ball_clear.
  rewrite Forall_forall in H. now apply H.
Qed.

Lemma X8_resolution_idempotent_witness :
  handle_collisions
    (handle_collisions (page true true [corner_ball; dragged_ball]))
  = handle_collisions (page true true [corner_ball; dragged_ball]).
Proof.
  apply (X8_resolution_idempotent
           (page true true [corner_ball; dragged_ball])).
  repeat constructor; cbn; lia.
Defined.

Lemma advance_ball_free (mx my : Z) (g rs : bool) (b : Ball.t) :
  Ball.drag_state b = None ->
  Ball.drag_state (advance_ball mx my g rs b) = None.
Proof.
  destruct b as [vx vy e d]; cbn. intros ->.
  destruct g, rs; frame_stages; reflexivity.
Qed.

Lemma advance_frame_free_fits (w : World) :
  Forall (free_and_fits (svg_width w) (svg_height w)) (balls w) ->
  Forall (free_and_fits (svg_width w) (svg_height w))
         (balls (advance_frame w)).
Proof.
  intros H. unfold advance_frame, handle_collisions. cbn.
  rewrite map_map. apply Forall_map. revert H. apply Forall_impl.
  intros b [Hfree Hfit]. split.
  - now apply collide_ball_free, advance_ball_free.
  - revert Hfit. unfold fits.
    rewrite (appearance_radius _ _ (collide_ball_appearance _ _ _)).
    now rewrite (appearance_radius _ _ (advance_ball_appearance _ _ _ _ _)).
Qed.

Lemma advance_frame_free_clear (w : World) :
  Forall (free_and_fits (svg_width w) (svg_height w)) (balls w) ->
  Forall (free_and_clear (svg_width w) (svg_height w))
         (balls (advance_frame w)).
Proof.
  intros H. unfold advance_frame, handle_collisions. cbn.
  rewrite map_map. apply Forall_map. revert H. apply Forall_impl.
  intros b [Hfree Hfit]. split.
  - now apply collide_ball_free, advance_ball_free.
  - apply collide_ball_clear. revert Hfit. unfold fits.
    now rewrite (appearance_radius _ _ (advance_ball_appearance _ _ _ _ _)).
Qed.

(** X9: when no ball is dragged and every ball leaves room for the inset
    (2r + 1 below width and height), then after every frame, however
    many have passed and whatever gravity and resistance do, every ball
    lies strictly inside the viewport and is still not dragged.  (Frames
    read the mouse position for dragged balls only.) *)
Theorem X9_frames_contain_balls (n : nat) (w : World) :
  Forall (free_and_fits (svg_width w) (svg_height w)) (balls w) ->
  Forall (free_and_clear (svg_width w) (svg_height w))
         (balls (Nat.iter (S n) advance_frame w)).
Proof.
  intros H.
  assert (Hn : forall k,
             controls (Nat.iter k advance_frame w) = controls w /\
             Forall (free_and_fits (svg_width w) (svg_height w))
                    (balls (Nat.iter k advance_frame w))).
  { induction k as [| k [IHc IHf]]; [split; [reflexivity | exact H] |].
    rewrite Nat.iter_succ.
    assert (Hw : svg_width (Nat.iter k advance_frame w) = svg_width w)
      by exact (f_equal svg_width IHc).
    assert (Hh : svg_height (Nat.iter k advance_frame w) = svg_height w)
      by exact (f_equal svg_height IHc).
    split; [now rewrite advance_frame_controls |].
    rewrite <- Hw, <- Hh. apply advance_frame_free_fits. now rewrite Hw, Hh. }
  destruct (Hn n) as [Hc Hf]. rewrite Nat.iter_succ.
  assert (Hw : svg_width (Nat.iter n advance_frame w) = svg_width w)
    by exact (f_equal svg_width Hc).
  assert (Hh : svg_height (Nat.iter n advance_frame w) = svg_height w)
    by exact (f_equal svg_height Hc).
  rewrite <- Hw, <- Hh. apply advance_frame_free_clear. now rewrite Hw, Hh.
Qed.

Lemma X9_frames_contain_balls_witness :
  Forall (free_and_clear 800 600)
    (balls (Nat.iter 40 advance_frame
              (page true true [corner_ball; thrown_ball; fast_ball]))).
Proof.
  apply (X9_frames_contain_balls 39
           (page true true [corner_ball; thrown_ball; fast_ball])).
  repeat constructor; cbn; lia.
Defined.

(* ------------------------------------------------------------------ *)
(** ** Dragging *)

Lemma run_app (es1 es2 : list Event) (w : World) :
  run (es1 ++ es2) w = run es2 (run es1 w).
Proof.
  unfold run. apply fold_left_app.
Qed.

(** The drag state after a path: same offset, and an estimate taken
    from the last two positions. *)
Lemma drag_to_path (ps : list (Z * Z)) (b : Ball.t) (d : DragState.t) :
  Ball.drag_state b = Some d ->
  exists d',
    Ball.drag_state (fold_left (fun b p => drag_to p b) ps b) = Some d' /\
    DragState.offset_x d' = DragState.offset_x d /\
    DragState.offset_y d' = DragState.offset_y d /\
    Ball.vel_x (fold_left (fun b p => drag_to p b) ps b) = Ball.vel_x b /\
    Ball.vel_y (fold_left (fun b p => drag_to p b) ps b) = Ball.vel_y b /\
    Ball.r (fold_left (fun b p => drag_to p b) ps b) = Ball.r b.
Proof.
  revert b d. induction ps as [| p ps IH]; intros b d Hd; cbn.
  - exists d. repeat split. exact Hd.
  - destruct (IH (drag_to p b) (DragState.update_velocity (fst p) (snd p) d))
      as (d' & H1 & H2 & H3 & H4 & H5 & H6).
    { unfold drag_to. now rewrite Hd. }
    exists d'. rewrite H1, H2, H3, H4, H5, H6.
    unfold drag_to. rewrite Hd. repeat split.
Qed.

(** A drag along a path that keeps the ball away from the walls: frame
    by frame the ball is where [drag_to] puts it. *)
Lemma run_drag_path (ps : list (Z * Z)) (w : World) (i : nat) (b : Ball.t)
  (d : DragState.t) :
  nth_error (balls w) i = Some b ->
  Ball.drag_state b = Some d ->
  Forall (pointer_clear (svg_width w) (svg_height w) d (Ball.r b)) ps ->
  svg_width (run (drag_path ps) w) = svg_width w /\
  svg_height (run (drag_path ps) w) = svg_height w /\
  nth_error (balls (run (drag_path ps) w)) i
  = Some (fold_left (fun b p => drag_to p b) ps b).
Proof.
  revert w b d. induction ps as [| p ps IH]; intros w b d Hb Hd Hps.
  - cbn. auto.
  - inversion Hps as [| p' ps' Hp Hrest]; subst.
    change (run (drag_path (p :: ps)) w)
      with (run (drag_path ps)
              (advance_frame (set_mouse (fst p) (snd p) w))).
    set (w1 := advance_frame (set_mouse (fst p) (snd p) w)).
    assert (Hb1 : nth_error (balls w1) i = Some (drag_to p b)).
    { unfold w1. rewrite (advance_frame_nth _ i b) by exact Hb. cbn.
      rewrite (advance_ball_dragged _ _ _ _ b d Hd).
      rewrite collide_ball_unchanged.
      - unfold drag_to. now rewrite Hd.
      - exact Hp. }
    destruct (IH w1 (drag_to p b)
                (DragState.update_velocity (fst p) (snd p) d) Hb1)
      as (Hw & Hh & Hn).
    + unfold drag_to. now rewrite Hd.
    + unfold drag_to. rewrite Hd. exact Hrest.
    + cbn [fold_left]. rewrite Hw, Hh, Hn. auto.
Qed.

(** X10: while a ball is dragged along a path that keeps it away from the
    walls, it stays attached to the mouse: after the last frame its
    centre is the mouse position minus the offset fixed at the start of
    the drag, it is still dragged with that offset, the drag state
    remembers the mouse position, and its stored velocity, radius and the
    viewport are untouched, whatever the checkboxes say. *)
Theorem X10_dragged_ball_tracks_mouse
  (ps : list (Z * Z)) (p : Z * Z) (w : World) (i : nat) (b : Ball.t)
  (d : DragState.t) :
  nth_error (balls w) i = Some b ->
  Ball.drag_state b = Some d ->
  Forall (pointer_clear (svg_width w) (svg_height w) d (Ball.r b))
         (ps ++ [p]) ->
  exists b' d',
    nth_error (balls (run (drag_path (ps ++ [p])) w)) i = Some b' /\
    Ball.cx b' = fst p - DragState.offset_x d /\
    Ball.cy b' = snd p - DragState.offset_y d /\
    Ball.drag_state b' = Some d' /\
    DragState.offset_x d' = DragState.offset_x d /\
    DragState.offset_y d' = DragState.offset_y d /\
    DragState.pos_x d' = fst p /\ DragState.pos_y d' = snd p /\
    Ball.vel_x b' = Ball.vel_x b /\ Ball.vel_y b' = Ball.vel_y b /\
    Ball.r b' = Ball.r b.
Proof.
  intros Hb Hd Hps.
  destruct (run_drag_path (ps ++ [p]) w i b d Hb Hd Hps) as (_ & _ & Hn).
  rewrite fold_left_app in Hn. cbn [fold_left] in Hn.
  destruct (drag_to_path ps b d Hd) as (d1 & H1 & H2 & H3 & H4 & H5 & H6).
  unfold drag_to at 1 in Hn. rewrite H1 in Hn.
  eexists _, (DragState.update_velocity (fst p) (snd p) d1).
  split; [exact Hn |].
  unfold Ball.cx, Ball.cy, Ball.r in *. cbn.
  rewrite H2, H3. repeat split; assumption.
Qed.

Lemma X10_dragged_ball_tracks_mouse_witness :
  exists b' d',
    nth_error
      (balls (run (drag_path ([(100, 320); (140, 330)] ++ [(200, 310)]))
                busy_page)) 1 = Some b' /\
    Ball.cx b' = fst (200, 310) - DragState.offset_x grip /\
    Ball.cy b' = snd (200, 310) - DragState.offset_y grip /\
    Ball.drag_state b' = Some d' /\
    DragState.offset_x d' = DragState.offset_x grip /\
    DragState.offset_y d' = DragState.offset_y grip /\
    DragState.pos_x d' = fst (200, 310) /\
    DragState.pos_y d' = snd (200, 310) /\
    Ball.vel_x b' = Ball.vel_x dragged_ball /\
    Ball.vel_y b' = Ball.vel_y dragged_ball /\
    Ball.r b' = Ball.r dragged_ball.
Proof.
  apply (X10_dragged_ball_tracks_mouse
           [(100, 320); (140, 330)] (200, 310) busy_page 1 dragged_ball
           grip).
  - reflexivity.
  - reflexivity.
  - repeat constructor; cbn; lia.
Defined.

(** X11: flinging.  When a ball that was dragged for at least two frames
    (away from the walls) is let go, its velocity is the displacement of
    the mouse between the last two frames, per component; it is free
    again and rests where the drag left it. *)
Theorem X11_release_velocity_is_last_displacement
  (ps : list (Z * Z)) (p1 p2 : Z * Z) (w : World) (i : nat) (b : Ball.t)
  (d : DragState.t) :
  nth_error (balls w) i = Some b ->
  Ball.drag_state b = Some d ->
  Forall (pointer_clear (svg_width w) (svg_height w) d (Ball.r b))
         (ps ++ [p1; p2]) ->
  exists b',
    nth_error (balls (run (drag_path (ps ++ [p1; p2]) ++ [MouseUp i]) w)) i
    = Some b' /\
    Ball.vel_x b' = fst p2 - fst p1 /\
    Ball.vel_y b' = snd p2 - snd p1 /\
    Ball.drag_state b' = None /\
    Ball.cx b' = fst p2 - DragState.offset_x d /\
    Ball.cy b' = snd p2 - DragState.offset_y d.
Proof.
  intros Hb Hd Hps.
  destruct (run_drag_path (ps ++ [p1; p2]) w i b d Hb Hd Hps)
    as (_ & _ & Hn).
  rewrite fold_left_app in Hn. cbn [fold_left] in Hn.
  destruct (drag_to_path ps b d Hd) as (d1 & H1 & H2 & H3 & _).
  unfold drag_to at 2 in Hn. rewrite H1 in Hn.
  unfold drag_to at 1 in Hn. cbn in Hn.
  rewrite run_app. cbn.
  eexists. split.
  - apply update_at_nth_same. exact Hn.
  - unfold Ball.cx, Ball.cy. cbn. rewrite H2, H3. repeat split.
Qed.

Lemma X11_release_velocity_witness :
  exists b',
    nth_error
      (balls (run (drag_path ([(100, 320)] ++ [(140, 330); (200, 310)])
                   ++ [MouseUp 1]) busy_page)) 1 = Some b' /\
    Ball.vel_x b' = fst (200, 310) - fst (140, 330) /\
    Ball.vel_y b' = snd (200, 310) - snd (140, 330) /\
    Ball.drag_state b' = None /\
    Ball.cx b' = fst (200, 310) - DragState.offset_x grip /\
    Ball.cy b' = snd (200, 310) - DragState.offset_y grip.
Proof.
  apply (X11_release_velocity_is_last_displacement
           [(100, 320)] (140, 330) (200, 310) busy_page 1 dragged_ball
           grip).
  - reflexivity.
  - reflexivity.
  - repeat constructor; cbn; lia.
Defined.

(* ------------------------------------------------------------------ *)
(** ** Free fall *)

Lemma triangle_succ (n : Z) : triangle (n + 1) = triangle n + (n + 1).
Proof.
  unfold triangle.
  replace ((n + 1) * (n + 1 + 1)) with (n * (n + 1) + (n + 1) * 2) by ring.
  now rewrite Z.div_add by lia.
Qed.

Lemma fallen_0 (b : Ball.t) : fallen 0 b = b.
Proof.
  unfold fallen, Ball.cx, Ball.cy. open_ball b.
  now rewrite !Z.add_0_r.
Qed.

(** One iteration of the loop of [advance_frame] on a free ball, with
    gravity and without resistance. *)
Lemma advance_ball_falling (mx my n : Z) (b : Ball.t) :
  Ball.drag_state b = None ->
  advance_ball mx my true false (fallen n b) = fallen (n + 1) b.
Proof.
  unfold fallen, Ball.cx, Ball.cy. open_ball b. intros ->.
  frame_stages. rewrite triangle_succ.
  unfold Ball.set_elem, Ball.set_vel_y, Circle.set_cy, Circle.set_cx. cbn.
  f_equal; [lia |]. f_equal; lia.
Qed.

(** X12: free fall.  For a free ball on a page with gravity on and
    resistance off that touches no wall during [n] frames, after those
    frames the vertical velocity has grown by [n], the horizontal one is
    unchanged, and the centre has moved by [n * vx] horizontally and by
    [n * vy + n (n + 1) / 2] vertically. *)
Theorem X12_free_fall (n : nat) (w : World) (i : nat) (b : Ball.t) :
  nth_error (balls w) i = Some b ->
  Ball.drag_state b = None ->
  gravity_checkbox w = true ->
  resistance_checkbox w = false ->
  (forall k, 1 <= k <= Z.of_nat n ->
             clear_of_walls (svg_width w) (svg_height w) (fallen k b)) ->
  exists b',
    nth_error (balls (Nat.iter n advance_frame w)) i = Some b' /\
    Ball.vel_x b' = Ball.vel_x b /\
    Ball.vel_y b' = Ball.vel_y b + Z.of_nat n /\
    Ball.cx b' = Ball.cx b + Z.of_nat n * Ball.vel_x b /\
    Ball.cy b' = Ball.cy b + Z.of_nat n * Ball.vel_y b
                 + Z.of_nat n * (Z.of_nat n + 1) / 2 /\
    Ball.drag_state b' = None.
Proof.
  intros Hb Hd Hg Hrs Hclear.
  assert (Hn : controls (Nat.iter n advance_frame w) = controls w /\
               nth_error (balls (Nat.iter n advance_frame w)) i
               = Some (fallen (Z.of_nat n) b)).
  { induction n as [| n IH].
    - cbn. split; [reflexivity |]. now rewrite fallen_0.
    - destruct IH as [Hc Hn].
      { intros k Hk. apply Hclear. lia. }
      rewrite Nat.iter_succ.
      split; [now rewrite advance_frame_controls |].
      rewrite (advance_frame_nth _ i _ Hn).
      assert (Hg' : gravity_checkbox (Nat.iter n advance_frame w) = true)
        by (rewrite <- Hg; exact (f_equal gravity_checkbox Hc)).
      assert (Hrs' : resistance_checkbox (Nat.iter n advance_frame w) = false)
        by (rewrite <- Hrs; exact (f_equal resistance_checkbox Hc)).
      assert (Hw' : svg_width (Nat.iter n advance_frame w) = svg_width w)
        by exact (f_equal svg_width Hc).
      assert (Hh' : svg_height (Nat.iter n advance_frame w) = svg_height w)
        by exact (f_equal svg_height Hc).
      rewrite Hg', Hrs', Hw', Hh', (advance_ball_falling _ _ _ b Hd).
      replace (Z.of_nat n + 1) with (Z.of_nat (S n)) by lia.
      rewrite collide_ball_unchanged; [reflexivity |].
      apply Hclear. lia. }
  destruct Hn as [_ Hn].
  eexists. split; [exact Hn |].
  unfold fallen, triangle, Ball.cx, Ball.cy. cbn.
  repeat split. exact Hd.
Qed.

Lemma X12_free_fall_witness :
  exists b',
    nth_error (balls (Nat.iter 12 advance_frame
                        (page true false [fast_ball; thrown_ball]))) 1
    = Some b' /\
    Ball.vel_x b' = Ball.vel_x thrown_ball /\
    Ball.vel_y b' = Ball.vel_y thrown_ball + Z.of_nat 12 /\
    Ball.cx b' = Ball.cx thrown_ball + Z.of_nat 12 * Ball.vel_x thrown_ball /\
    Ball.cy b' = Ball.cy thrown_ball + Z.of_nat 12 * Ball.vel_y thrown_ball
                 + Z.of_nat 12 * (Z.of_nat 12 + 1) / 2 /\
    Ball.drag_state b' = None.
Proof.
  apply (X12_free_fall 12 (page true false [fast_ball; thrown_ball]) 1
           thrown_ball); try reflexivity.
  intros k Hk.
  assert (Hcases : k = 1 \/ k = 2 \/ k = 3 \/ k = 4 \/ k = 5 \/ k = 6 \/
                   k = 7 \/ k = 8 \/ k = 9 \/ k = 10 \/ k = 11 \/ k = 12)
    by lia.
  unfold clear_of_walls.
  repeat (destruct Hcases as [-> | Hcases]); try subst k;
    vm_compute; repeat split; reflexivity.
Defined.

(* ------------------------------------------------------------------ *)
(** ** The colours of the improbability drive *)

Lemma floor_scaled_byte (k : Num.draw) :
  Num.valid_draw k -> 0 <= Num.floor_scaled k 256 < 256.
Proof.
  unfold Num.valid_draw, Num.floor_scaled.
  assert (HP : 0 < 2 ^ 53) by reflexivity.
  generalize dependent (2 ^ 53). intros P HP [Hk0 Hk].
  split.
  - apply Z.div_pos; nia.
  - apply Z.div_lt_upper_bound; nia.
Qed.

Lemma byte_in_bytes (n : Z) : 0 <= n < 256 -> In n bytes.
Proof.
  intros Hn. unfold bytes. apply in_map_iff.
  exists (Z.to_nat n). split; [lia |]. apply in_seq. lia.
Qed.

Lemma bytes_read_back : forallb hex_pair_reads_back bytes = true.
Proof. vm_compute. reflexivity. Qed.

Lemma rdm_hex_pair_value (k : Num.draw) :
  Num.valid_draw k ->
  hex_pair_value (rdm_hex_pair k) = Some (Num.floor_scaled k 256) /\
  String.length (rdm_hex_pair k) = 2%nat.
Proof.
  intros Hk. pose proof (floor_scaled_byte k Hk) as Hn.
  pose proof bytes_read_back as Hall. rewrite forallb_forall in Hall.
  specialize (Hall _ (byte_in_bytes _ Hn)).
  unfold rdm_hex_pair. revert Hall. unfold hex_pair_reads_back.
  generalize (Num.floor_scaled k 256). intros n. cbv zeta.
  destruct (hex_pair_value _) as [m |]; [| discriminate].
  intros H. apply andb_prop in H. destruct H as [H1 H2].
  apply Z.eqb_eq in H1. apply Nat.eqb_eq in H2. now subst.
Qed.

Lemma hex_pair_shape (s : string) (n : Z) :
  hex_pair_value s = Some n ->
  exists a b, s = String a (String b EmptyString).
Proof.
  destruct s as [| a [| b [| c s]]]; cbn; try discriminate.
  intros _. now exists a, b.
Qed.

Lemma colour_of_pairs (s1 s2 s3 : string) (n1 n2 n3 : Z) :
  hex_pair_value s1 = Some n1 ->
  hex_pair_value s2 = Some n2 ->
  hex_pair_value s3 = Some n3 ->
  colour_channels ("#" ++ s1 ++ s2 ++ s3) = Some (n1, n2, n3).
Proof.
  intros H1 H2 H3.
  destruct (hex_pair_shape _ _ H1) as (a1 & b1 & ->).
  destruct (hex_pair_shape _ _ H2) as (a2 & b2 & ->).
  destruct (hex_pair_shape _ _ H3) as (a3 & b3 & ->).
  cbn [append colour_channels]. now rewrite H1, H2, H3.
Qed.

Lemma improbable_ball_coloured (width height : Z) (rnd : nat -> Num.draw)
  (n : nat) (b : Ball.t) :
  valid_draws rnd ->
  well_coloured (improbable_ball width height rnd n b).
Proof.
  intros Hrnd.
  destruct (rdm_hex_pair_value _ (Hrnd n)) as [H1 _].
  destruct (rdm_hex_pair_value _ (Hrnd (n + 1)%nat)) as [H2 _].
  destruct (rdm_hex_pair_value _ (Hrnd (n + 2)%nat)) as [H3 _].
  pose proof (floor_scaled_byte _ (Hrnd n)).
  pose proof (floor_scaled_byte _ (Hrnd (n + 1)%nat)).
  pose proof (floor_scaled_byte _ (Hrnd (n + 2)%nat)).
  unfold well_coloured, improbable_ball. cbn [Ball.elem Circle.fill
    Circle.set_r Circle.set_cy Circle.set_cx Circle.set_fill].
  eexists _, _, _. split; [apply (colour_of_pairs _ _ _ _ _ _ H1 H2 H3) |].
  unfold is_byte. lia.
Qed.

(** X13: for every draw, [rdm_hex_pair] returns exactly two characters,
    both lower-case hexadecimal digits, and read as a hexadecimal number
    they are the byte [Math.floor(draw * 256)]: the padding with "0"
    makes one-digit values two characters wide. *)
Theorem X13_rdm_hex_pair_is_a_byte (k : Num.draw) :
  Num.valid_draw k ->
  String.length (rdm_hex_pair k) = 2%nat /\
  hex_pair_value (rdm_hex_pair k) = Some (Num.floor_scaled k 256) /\
  is_byte (Num.floor_scaled k 256).
Proof.
  intros Hk. destruct (rdm_hex_pair_value k Hk) as [Hv Hl].
  pose proof (floor_scaled_byte k Hk).
  split; [exact Hl |]. split; [exact Hv |]. unfold is_byte. lia.
Qed.

Lemma X13_rdm_hex_pair_witness :
  String.length (rdm_hex_pair (sample_draws 3)) = 2%nat /\
  hex_pair_value (rdm_hex_pair (sample_draws 3))
  = Some (Num.floor_scaled (sample_draws 3) 256) /\
  is_byte (Num.floor_scaled (sample_draws 3) 256).
Proof.
  apply (X13_rdm_hex_pair_is_a_byte (sample_draws 3)).
  exact (sample_draws_valid 3%nat).
Defined.

(** X14: after the improbability drive, however it ends, the fill
    attribute of every ball is a colour of the form "#rrggbb": a hash
    sign and six hexadecimal digits that denote three bytes. *)
Theorem X14_improbability_colours (rnd : nat -> Num.draw) (w : World) :
  valid_draws rnd ->
  Forall well_coloured
         (balls (world_of (infinite_improbability_drive rnd w))).
Proof.
  intros Hrnd. unfold infinite_improbability_drive.
  apply select_ball_Forall; try (intros b Hb; exact Hb).
  cbn. generalize 0%nat.
  induction (balls w) as [| b bs IH]; intros n; cbn; constructor.
  - now apply improbable_ball_coloured.
  - apply IH.
Qed.

Lemma X14_improbability_colours_witness :
  Forall well_coloured
    (balls (world_of
              (infinite_improbability_drive sample_draws
                 (page true true [corner_ball; fast_ball; tall_ball])))).
Proof.
  apply (X14_improbability_colours sample_draws
           (page true true [corner_ball; fast_ball; tall_ball])).
  exact sample_draws_valid.
Defined.

(* ------------------------------------------------------------------ *)
(** ** The improbability drive and the drag states *)

Lemma select_ball_drag_states (ball_num : Z) (w : World) :
  map Ball.drag_state (balls (world_of (select_ball ball_num w)))
  = map Ball.drag_state (balls w).
Proof.
  unfold select_ball. cbn.
  destruct (ball_at (balls w) (ball_num - 1)); cbn; [| reflexivity].
  rewrite (map_update_at_key Ball.drag_state highlight_ball)
    by reflexivity.
  now rewrite map_map.
Qed.

(** X15: the improbability drive neither picks up nor releases a ball and
    neither adds nor removes one: however it ends, the drag states of the
    balls are, ball by ball, what they were, although every ball has been
    given a new position and velocity. *)
Theorem X15_improbability_keeps_drag_states
  (rnd : nat -> Num.draw) (w : World) :
  let w' := world_of (infinite_improbability_drive rnd w) in
  map Ball.drag_state (balls w') = map Ball.drag_state (balls w) /\
  List.length (balls w') = List.length (balls w).
Proof.
  cbv zeta.
  assert (H : map Ball.drag_state
                (balls (world_of (infinite_improbability_drive rnd w)))
              = map Ball.drag_state (balls w)).
  { unfold infinite_improbability_drive.
    rewrite select_ball_drag_states. cbn.
    apply improbable_balls_drag_state. }
  split; [exact H |].
  rewrite <- (length_map Ball.drag_state), H. apply length_map.
Qed.

(** X16: when the selector names no ball, which includes every page
    without balls, the improbability drive still reassigns every ball and
    then ends with a TypeError: no outline and no control is updated.  On
    a page without balls nothing changes at all. *)
Theorem X16_improbability_without_selection
  (rnd : nat -> Num.draw) (w : World) :
  ball_selector w < 1 \/ Z.of_nat (List.length (balls w)) < ball_selector w ->
  infinite_improbability_drive rnd w
  = Threw (set_balls
             (improbable_balls (svg_width w) (svg_height w) rnd 0 (balls w))
             w) /\
  (balls w = [] -> infinite_improbability_drive rnd w = Threw w).
Proof.
  intros H. unfold infinite_improbability_drive, select_ball. cbn.
  rewrite ball_at_out_of_range
    by (rewrite improbable_balls_length; exact H).
  split; [now destruct w |].
  intros He. destruct w; cbn in *. now subst.
Qed.

Lemma X16_improbability_without_selection_witness :
  infinite_improbability_drive half_draws (empty_page true true)
  = Threw (set_balls
             (improbable_balls (svg_width (empty_page true true))
                (svg_height (empty_page true true)) half_draws 0
                (balls (empty_page true true)))
             (empty_page true true)) /\
  (balls (empty_page true true) = [] ->
   infinite_improbability_drive half_draws (empty_page true true)
   = Threw (empty_page true true)).
Proof.
  apply (X16_improbability_without_selection half_draws
           (empty_page true true)).
  left. cbn. lia.
Defined.

(* ------------------------------------------------------------------ *)
(** ** The selection stays consistent *)

Lemma appearance_outline_key (b b' : Ball.t) :
  appearance b' = appearance b -> outline_key b' = outline_key b.
Proof.
  unfold appearance, outline_key, Circle.highlighted.
  now intros [= -> _ -> _].
Qed.

Lemma highlighted_count_keys (bs : list Ball.t) :
  highlighted_count bs
  = List.length (filter fst (map outline_key bs)).
Proof.
  unfold highlighted_count.
  induction bs as [| b bs IH]; cbn; [reflexivity |].
  destruct (Circle.highlighted (Ball.elem b)); cbn; now rewrite IH.
Qed.

Lemma ball_at_same_keys (bs bs' : list Ball.t) (k : Z) (b : Ball.t) :
  map outline_key bs' = map outline_key bs ->
  ball_at bs k = Some b ->
  exists b', ball_at bs' k = Some b' /\ outline_key b' = outline_key b.
Proof.
  unfold ball_at. destruct (k <? 0); [discriminate |].
  intros Hk Hb.
  pose proof (f_equal (fun l => nth_error l (Z.to_nat k)) Hk) as H.
  cbn beta in H. rewrite !nth_error_map, Hb in H.
  destruct (nth_error bs' (Z.to_nat k)) as [b' |]; cbn in H;
    [| discriminate].
  exists b'. split; [reflexivity |]. congruence.
Qed.

Lemma ball_at_some_range (bs : list Ball.t) (n : Z) (b : Ball.t) :
  ball_at bs (n - 1) = Some b -> 1 <= n <= Z.of_nat (List.length bs).
Proof.
  unfold ball_at. destruct (Z.ltb_spec (n - 1) 0); [discriminate |].
  intros Hb.
  assert (Hlt : (Z.to_nat (n - 1) < List.length bs)%nat).
  { apply nth_error_Some. rewrite Hb. discriminate. }
  lia.
Qed.

(** Consistency of the selection depends on the balls only through
    their outlines and radii. *)
Lemma selection_ok_same_keys (w w' : World) :
  map outline_key (balls w') = map outline_key (balls w) ->
  ball_selector w' = ball_selector w ->
  ball_size_range w' = ball_size_range w ->
  selection_ok w -> selection_ok w'.
Proof.
  intros Hk Hsel Hsize [He | (b & Hb & Hh & Hs & Hc)].
  - left. rewrite He in Hk. now apply map_eq_nil in Hk.
  - right.
    destruct (ball_at_same_keys _ _ _ _ Hk Hb) as (b' & Hb' & Hkey).
    unfold outline_key in Hkey. injection Hkey as Hh' Hr'.
    exists b'. rewrite Hsel, Hsize.
    split; [exact Hb' |]. split; [congruence |]. split; [congruence |].
    now rewrite highlighted_count_keys, Hk, <- highlighted_count_keys.
Qed.

Lemma select_ball_selection_ok (ball_num : Z) (w : World) :
  1 <= ball_num <= Z.of_nat (List.length (balls w)) ->
  selection_ok (world_of (select_ball ball_num w)).
Proof.
  intros Hn.
  destruct (select_ball_valid ball_num w Hn) as (b & w' & Hb & Hret & Hs & Hb').
  rewrite Hret. right. exists (highlight_ball (clear_ball b)).
  rewrite (select_ball_returns _ _ _ Hb) in Hret.
  injection Hret as <-. cbn in *.
  split; [exact Hb' |]. split; [reflexivity |]. split; [reflexivity |].
  apply highlighted_count_one. lia.
Qed.

Lemma add_ball_selection_ok (w : World) :
  selection_ok (world_of (add_ball w)).
Proof.
  unfold add_ball. apply select_ball_selection_ok.
  cbn. rewrite length_app. cbn. lia.
Qed.

Lemma improbability_selection_ok (rnd : nat -> Num.draw) (w : World) :
  selection_ok w ->
  selection_ok (world_of (infinite_improbability_drive rnd w)).
Proof.
  intros [He | (b & Hb & _)]; unfold infinite_improbability_drive.
  - left. unfold select_ball. cbn. rewrite He. cbn.
    rewrite (ball_at_out_of_range [] (ball_selector w)) by (cbn; lia).
    reflexivity.
  - apply select_ball_selection_ok. cbn.
    rewrite improbable_balls_length. now apply (ball_at_some_range _ _ b).
Qed.

(** Mouse events, frames and checkboxes change neither the outline nor
    the radius of a ball, nor the selection controls. *)
Lemma handle_event_keys (e : Event) (w : World) :
  match e with
  | AddBall | SelectBall _ | Improbability _ => False
  | _ => True
  end ->
  map outline_key (balls (handle_event e w)) = map outline_key (balls w) /\
  ball_selector (handle_event e w) = ball_selector w /\
  ball_size_range (handle_event e w) = ball_size_range w.
Proof.
  destruct e; intros H; try contradiction; cbn.
  - auto.
  - split; [| auto]. apply map_update_at_key. reflexivity.
  - split; [| auto]. apply map_update_at_key.
    intros b. unfold mouseup_ball, Ball.stop_drag.
    now destruct (Ball.drag_state b).
  - split; [| auto]. rewrite !map_map. apply map_ext. intros b.
    apply appearance_outline_key.
    now rewrite collide_ball_appearance, advance_ball_appearance.
  - auto.
Qed.

Lemma handle_event_selection_ok (e : Event) (w : World) :
  ui_event w e = true ->
  selection_ok w -> selection_ok (handle_event e w).
Proof.
  intros He Hw.
  assert (Hkeys : forall e', match e' with
                             | AddBall | SelectBall _ | Improbability _ => False
                             | _ => True
                             end -> selection_ok (handle_event e' w)).
  { intros e' He'.
    destruct (handle_event_keys e' w He') as (Hk & Hs & Hz).
    exact (selection_ok_same_keys _ _ Hk Hs Hz Hw). }
  destruct e; try (apply Hkeys; exact I).
  - apply add_ball_selection_ok.
  - cbn in *. apply select_ball_selection_ok.
    apply andb_prop in He. destruct He as [H1 H2].
    apply Z.leb_le in H1. apply Z.leb_le in H2. lia.
  - now apply improbability_selection_ok.
Qed.

(** X17: the selection stays consistent.  On a page where it holds (the
    empty page, for one), after any sequence of mouse events, frames,
    checkbox changes, added balls, runs of the improbability drive and
    selections of existing balls, a page with balls has a selector that
    names a ball, exactly one outlined ball, the selected one, and a size
    control that shows the radius of that ball. *)
Theorem X17_selection_stays_consistent (es : list Event) (w : World) :
  selection_ok w ->
  ui_events es w = true ->
  selection_ok (run es w).
Proof.
  unfold run. revert w.
  induction es as [| e es IH]; intros w Hw Hes; cbn in *; [exact Hw |].
  apply andb_prop in Hes. destruct Hes as [He Hes].
  apply IH; [| exact Hes].
  now apply handle_event_selection_ok.
Qed.

Lemma X17_selection_stays_consistent_witness :
  selection_ok (run session (empty_page false false)).
Proof.
  apply (X17_selection_stays_consistent session (empty_page false false)).
  - left. reflexivity.
  - vm_compute. reflexivity.
Defined.

(* ------------------------------------------------------------------ *)
(** ** Picking a ball up *)

(** X18: picking a ball up does not move it.  After a "mousemove" to any
    position, a "mousedown" on a ball that is away from the walls and
    one frame, the ball is dragged, its centre is where it was before
    the click, and its velocity is zero, whatever velocity it had and
    whatever the checkboxes say. *)
Theorem X18_pick_up_does_not_move
  (w : World) (i : nat) (b : Ball.t) (x y : Z) :
  nth_error (balls w) i = Some b ->
  clear_of_walls (svg_width w) (svg_height w) b ->
  exists b',
    nth_error (balls (run [MouseMove x y; MouseDown i; Tick] w)) i
    = Some b' /\
    Ball.cx b' = Ball.cx b /\ Ball.cy b' = Ball.cy b /\
    Ball.vel_x b' = 0 /\ Ball.vel_y b' = 0 /\
    held b'.
Proof.
  intros Hb Hclear.
  change (run [MouseMove x y; MouseDown i; Tick] w)
    with (advance_frame (handle_event (MouseDown i) (set_mouse x y w))).
  set (w1 := handle_event (MouseDown i) (set_mouse x y w)).
  assert (Hb1 : nth_error (balls w1) i = Some (Ball.start_drag x y b))
    by (apply update_at_nth_same; exact Hb).
  rewrite (advance_frame_nth w1 i _ Hb1). cbn.
  rewrite (advance_ball_dragged _ _ _ _ (Ball.start_drag x y b) _ eq_refl).
  rewrite collide_ball_unchanged.
  - eexists. split; [reflexivity |].
    unfold held, Ball.cx, Ball.cy. cbn.
    repeat split; try lia. discriminate.
  - revert Hclear. unfold clear_of_walls, Ball.cx, Ball.cy, Ball.r. cbn.
    lia.
Qed.

Lemma X18_pick_up_witness :
  exists b',
    nth_error (balls (run [MouseMove 410 290; MouseDown 1; Tick]
                        (page true true [fast_ball; thrown_ball]))) 1
    = Some b' /\
    Ball.cx b' = Ball.cx thrown_ball /\ Ball.cy b' = Ball.cy thrown_ball /\
    Ball.vel_x b' = 0 /\ Ball.vel_y b' = 0 /\
    held b'.
Proof.
  apply (X18_pick_up_does_not_move
           (page true true [fast_ball; thrown_ball]) 1 thrown_ball 410 290).
  - reflexivity.
  - unfold clear_of_walls; cbn; lia.
Defined.
